(** * Pricing record: wire codec, blob codec, signature message and
    admissibility policy

    A shallow embedding of [src/oracle/pricing_record.cpp] and of the
    pricing-record part of [src/serialization/pricing_record.h].

    Conventions of the embedding:
    - [uint64_t], [uint32_t], [size_t] and [unsigned int] values are [N];
      every place where the C++ arithmetic can wrap has its [mod] written out;
    - the signature buffer [signature[64]] is a [list byte]; a write through
      an index is [buf_write], which has an explicit out-of-range branch;
    - [std::string] is [string];
    - a function that can throw returns a [result];
    - [LOG_ERROR] lines are collected in a list, oldest first. *)

From Stdlib Require Import NArith ZArith String Ascii List Lia.
From Stdlib.Strings Require Import Byte.
From Stdlib Require Import DecimalString HexadecimalString DecimalN DecimalPos.
From stdpp Require Import base list.
Import ListNotations.

Local Open Scope N_scope.

(** ** Machine integers *)

Definition two32 : N := 2 ^ 32.
Definition two64 : N := 2 ^ 64.

(** [unsigned int] addition. *)
Definition add_u32 (a b : N) : N := (a + b) mod two32.

(** [uint64_t] addition. *)
Definition add_u64 (a b : N) : N := (a + b) mod two64.

(** [(char) v]: the low eight bits of a [long]. *)
Definition char_of_long (v : Z) : byte :=
  match Byte.of_N (Z.to_N (v mod 256)%Z) with
  | Some b => b
  | None => x00
  end.

(** ** The record *)

Record pricing_record := mk_pricing_record {
  pr_version : N;
  spot : N;
  moving_average : N;
  timestamp : N;
  signature : list byte
}.

(** [sizeof(signature)] *)
Definition sizeof_signature : nat := 64.

(** Representation invariant of the C++ object: the buffer has its 64 bytes. *)
Definition wf_record (r : pricing_record) : Prop :=
  length (signature r) = sizeof_signature.

(** [std::memset(signature, 0, sizeof(signature))] *)
Definition zero_signature : list byte := repeat x00 sizeof_signature.

(** [pricing_record::pricing_record()] *)
Definition default_record : pricing_record :=
  mk_pricing_record 0 0 0 0 zero_signature.

(** [::memcmp(a, b, n)]: sign of the first differing byte pair, [0] when the
    first [n] bytes agree.  Reading past the end of either buffer does not
    happen for 64-byte buffers; the model stops the comparison there. *)
Fixpoint memcmp (a b : list byte) (n : nat) : Z :=
  match n, a, b with
  | S n', x :: a', y :: b' =>
      if Byte.eqb x y then memcmp a' b' n'
      else (Z.of_N (Byte.to_N x) - Z.of_N (Byte.to_N y))%Z
  | _, _, _ => 0%Z
  end.

(** [pricing_record::equal] *)
Definition equal (this other : pricing_record) : bool :=
  (pr_version this =? pr_version other) &&
  (spot this =? spot other) &&
  (moving_average this =? moving_average other) &&
  (timestamp this =? timestamp other) &&
  (memcmp (signature this) (signature other) sizeof_signature =? 0)%Z.

(** [pricing_record::empty] *)
Definition empty (this : pricing_record) : bool :=
  let empty_pr := default_record in
  equal this empty_pr.

(** [pricing_record::has_missing_rates] *)
Definition has_missing_rates (this : pricing_record) : bool :=
  (spot this =? 0) || (moving_average this =? 0).

(** ** Text rendering used by the stream insertions *)

(** [os << n] for an unsigned integer in the default (decimal) base. *)
Definition show_dec (n : N) : string :=
  DecimalString.NilZero.string_of_uint (N.to_uint n).

(** [os << std::hex << n]: lowercase digits, no prefix. *)
Definition show_hex (n : N) : string :=
  HexadecimalString.NilZero.string_of_uint (N.to_hex_uint n).

(** [std::string(n, c)] *)
Fixpoint fill (n : nat) (c : ascii) : string :=
  match n with
  | O => EmptyString
  | S n' => String c (fill n' c)
  end.

(** [std::setw(w) << std::setfill(c)] applied to one insertion: the text is
    right-adjusted in a field of [w] characters; longer text is not cut. *)
Definition setw_setfill (w : nat) (c : ascii) (s : string) : string :=
  (fill (w - String.length s) c ++ s)%string.

(** One iteration of the rendering loops of [store] and [verifySignature]:
    [ss << std::hex << std::setw(2) << std::setfill('0') << (0xff & signature[i])] *)
Definition hex_of_byte (b : byte) : string :=
  setw_setfill 2 "0"%char (show_hex (N.land 255 (Byte.to_N b))).

(** The loop [for (i = 0; i < 64; i++) sig_hex += ss.str()].  A read at an
    index the buffer does not have contributes nothing (not reached for a
    well-formed record). *)
Fixpoint sig_hex_loop (n : nat) (i : nat) (sig : list byte) : string :=
  match n with
  | O => EmptyString
  | S n' =>
      match sig !! i with
      | Some b => (hex_of_byte b ++ sig_hex_loop n' (S i) sig)%string
      | None => sig_hex_loop n' (S i) sig
      end
  end.

Definition toHex (sig : list byte) : string := sig_hex_loop 64 0 sig.

(** ** [strtol(s, NULL, 16)] *)

(** [isspace] in the C locale. *)
Definition isspace (c : ascii) : bool :=
  let n := N_of_ascii c in
  (n =? 32) || ((9 <=? n) && (n <=? 13)).

Definition hex_value (c : ascii) : option Z :=
  let n := N_of_ascii c in
  if (48 <=? n) && (n <=? 57) then Some (Z.of_N (n - 48))
  else if (97 <=? n) && (n <=? 102) then Some (Z.of_N (n - 87))
  else if (65 <=? n) && (n <=? 70) then Some (Z.of_N (n - 55))
  else None.

Fixpoint skip_spaces (s : string) : string :=
  match s with
  | String c s' => if isspace c then skip_spaces s' else s
  | EmptyString => s
  end.

(** The longest run of hexadecimal digits at the head of [s], accumulated
    most significant digit first. *)
Fixpoint hex_run (s : string) (acc : Z) : Z :=
  match s with
  | String c s' =>
      match hex_value c with
      | Some d => hex_run s' (16 * acc + d)%Z
      | None => acc
      end
  | EmptyString => acc
  end.

(** The optional [0x] / [0X] prefix is consumed only when a hexadecimal
    digit follows it. *)
Definition skip_0x (s : string) : string :=
  match s with
  | String z (String x (String c s')) =>
      if (N_of_ascii z =? 48) &&
         ((N_of_ascii x =? 120) || (N_of_ascii x =? 88)) &&
         (match hex_value c with Some _ => true | None => false end)
      then String c s' else s
  | _ => s
  end.

Definition LONG_MAX : Z := (2 ^ 63 - 1)%Z.
Definition LONG_MIN : Z := (- 2 ^ 63)%Z.

(** [strtol(s, NULL, 16)]: white space, an optional sign, an optional prefix,
    then the digits; no digits gives [0]; out-of-range values saturate. *)
Definition strtol16 (s : string) : Z :=
  let s1 := skip_spaces s in
  let '(neg, s2) :=
    match s1 with
    | String c s' =>
        if N_of_ascii c =? 45 then (true, s')
        else if N_of_ascii c =? 43 then (false, s')
        else (false, s1)
    | EmptyString => (false, s1)
    end in
  let v := hex_run (skip_0x s2) 0 in
  let v := if neg then (- v)%Z else v in
  Z.max LONG_MIN (Z.min LONG_MAX v).

(** [s.c_str()] as a C string: the characters before the first NUL. *)
Fixpoint c_str (s : string) : string :=
  match s with
  | String c s' => if N_of_ascii c =? 0 then EmptyString else String c (c_str s')
  | EmptyString => EmptyString
  end.

(** ** Wire form *)

(** The anonymous-namespace struct [pr_serialized]. *)
Record pr_serialized := mk_pr_serialized {
  w_pr_version : N;
  w_spot : N;
  w_moving_average : N;
  w_timestamp : N;
  w_signature : string
}.

(** [signature[i] = b] on the 64-byte member array: [None] is the write
    past the end of the buffer. *)
Definition buf_write (sig : list byte) (i : nat) (b : byte) : option (list byte) :=
  if decide (i < length sig)%nat then Some (<[i:=b]> sig) else None.

(** Outcome of running the decoding loop. *)
Inductive loop_outcome :=
| LoopDone (sig : list byte)
| LoopOutOfBounds (index : N)
| LoopOutOfFuel.

(** The byte the loop body computes at counter value [i]:
    [(char) strtol(in.signature.substr(i, 2).c_str(), NULL, 16)]. *)
Definition hex_chunk (s : string) (i : N) : byte :=
  let byteString := substring (N.to_nat i) 2 s in
  char_of_long (strtol16 (c_str byteString)).

(** [for (unsigned int i = 0; i < in.signature.length(); i += 2)
      signature[i>>1] = (char) strtol(...);]
    started at counter value [i] on buffer [sig]. *)
Fixpoint load_loop (fuel : nat) (s : string) (i : N) (sig : list byte) : loop_outcome :=
  match fuel with
  | O => LoopOutOfFuel
  | S fuel' =>
      if i <? N.of_nat (String.length s) then
        let idx := N.shiftr i 1 in
        match buf_write sig (N.to_nat idx) (hex_chunk s i) with
        | Some sig' => load_loop fuel' s (add_u32 i 2) sig'
        | None => LoopOutOfBounds idx
        end
      else LoopDone sig
  end.

(** The whole decoding loop of [_load], from [i = 0], on the destination
    buffer [dest].  The fuel is one more than the length of the text, which
    the loop never exhausts ([fromHex_fuel] below). *)
Definition fromHex (s : string) (dest : list byte) : loop_outcome :=
  load_loop (S (String.length s)) s 0 dest.

(** Outcome of [pricing_record::_load]. *)
Inductive load_outcome :=
| LoadTrue (this' : pricing_record)     (* returned [true] *)
| LoadFalse (this' : pricing_record)    (* returned [false] *)
| LoadOutOfBounds (index : N)           (* wrote past [signature[63]] *)
| LoadOutOfFuel.

(** [pricing_record::_load].  [src] is what [in._load(src, hparent)] made of
    the container: [Some in] when it returned [true], [None] otherwise. *)
Definition _load (src : option pr_serialized) (this : pricing_record) : load_outcome :=
  match src with
  | Some inp =>
      match fromHex (w_signature inp) (signature this) with
      | LoopDone sig' =>
          LoadTrue (mk_pricing_record (w_pr_version inp) (w_spot inp)
                      (w_moving_average inp) (w_timestamp inp) sig')
      | LoopOutOfBounds idx => LoadOutOfBounds idx
      | LoopOutOfFuel => LoadOutOfFuel
      end
  | None => LoadFalse this
  end.

(** [pricing_record::store]: the value [out] handed to the container. *)
Definition store (this : pricing_record) : pr_serialized :=
  let sig_hex := toHex (signature this) in
  mk_pr_serialized (pr_version this) (spot this) (moving_average this)
    (timestamp this) sig_hex.

(** ** Functions that can throw *)

Inductive result (A : Type) :=
| Ret (a : A)
| Throw (what : string).
Arguments Ret {A} a.
Arguments Throw {A} what.

Definition bind {A B} (m : result A) (k : A -> result B) : result B :=
  match m with
  | Ret a => k a
  | Throw w => Throw w
  end.

Notation "x <- m ;; k" := (bind m (fun x => k))
  (at level 100, m at next level, right associativity).

(** ** Signature verification *)

(** The part of OpenSSL that [verifySignature] calls.  A digest context is
    threaded through the three [EVP_DigestVerify*] calls; an allocation that
    returns [NULL] is [false] / [None]. *)
Class OpenSSL := {
  EVP_PKEY : Type;
  EVP_MD_CTX : Type;
  BIO_new_mem_buf : string -> bool;
  PEM_read_bio_PUBKEY : string -> option EVP_PKEY;
  EVP_MD_CTX_create : option EVP_MD_CTX;
  EVP_DigestVerifyInit : EVP_MD_CTX -> EVP_PKEY -> Z * EVP_MD_CTX;
  EVP_DigestVerifyUpdate : EVP_MD_CTX -> string -> Z * EVP_MD_CTX;
  EVP_DigestVerifyFinal : EVP_MD_CTX -> list byte -> Z
}.

(** The double-quote character of the C++ literals (ASCII 34). *)
Definition dquote : string := String (ascii_of_nat 34) EmptyString.

(** [oss << s] on a [std::ostringstream] whose contents are [oss]. *)
Definition put (oss : string) (s : string) : string := (oss ++ s)%string.

(** The local [message] of [verifySignature]: five statements on the
    stream [oss], each inserting a string literal, the first four followed
    by one integer member. *)
Definition message (this : pricing_record) : string :=
  let oss := EmptyString in
  let oss := put (put oss ("{" ++ dquote ++ "pr_version" ++ dquote ++ ":")) (show_dec (pr_version this)) in
  let oss := put (put oss ("," ++ dquote ++ "spot" ++ dquote ++ ":")) (show_dec (spot this)) in
  let oss := put (put oss ("," ++ dquote ++ "moving_average" ++ dquote ++ ":")) (show_dec (moving_average this)) in
  let oss := put (put oss ("," ++ dquote ++ "timestamp" ++ dquote ++ ":")) (show_dec (timestamp this)) in
  let oss := put oss "}" in
  oss.

Section Verify.
Context `{OpenSSL}.

(** The digest block of [verifySignature]: the value of [ret] after it. *)
Definition digest_verify (pubkey : EVP_PKEY) (message : string) (sig : list byte) : Z :=
  match EVP_MD_CTX_create with
  | Some ctx =>
      let '(ret, ctx) := EVP_DigestVerifyInit ctx pubkey in
      if (ret =? 1)%Z then
        let '(ret, ctx) := EVP_DigestVerifyUpdate ctx message in
        if (ret =? 1)%Z then EVP_DigestVerifyFinal ctx (take 64 sig)
        else ret
      else ret
  | None => 0%Z
  end.

(** [pricing_record::verifySignature].  What [ERR_print_errors_fp] writes to
    [stderr] is the library's own text and is left out. *)
Definition verifySignature (public_key : string) (this : pricing_record) : result bool :=
  if (String.length public_key =? 0)%nat then
    Throw ("Pricing record verification failed. NULL public key. PK Size: "
           ++ show_dec (N.of_nat (String.length public_key)))
  else if negb (BIO_new_mem_buf public_key) then Ret false
  else
    match PEM_read_bio_PUBKEY public_key with
    | None => Throw "Pricing record verification failed. NULL public key."
    | Some pubkey =>
        let sig_hex := toHex (signature this) in
        let message := message this in
        let ret := digest_verify pubkey message (signature this) in
        if (ret =? 1)%Z then Ret true else Ret false
    end.

End Verify.

(** ** Admissibility *)

(** The constants and the key lookup of [cryptonote_config.h], which
    [valid] uses: [get_config(nettype).ORACLE_PUBLIC_KEY] is [oracle_public_key],
    a lookup that may throw. *)
Class Config := {
  network_type : Type;
  HF_VERSION_SLIPPAGE_YIELD : N;
  PRICING_RECORD_VALID_TIME_DIFF_FROM_BLOCK : N;
  oracle_public_key : network_type -> result string
}.

Section Valid.
Context `{OpenSSL} `{Config}.

(** [pricing_record::valid]: the returned [bool] and the [LOG_ERROR] lines. *)
Definition valid (nettype : network_type)
    (hf_version bl_timestamp last_bl_timestamp : N)
    (this : pricing_record) : result (bool * list string) :=
  if (hf_version <? HF_VERSION_SLIPPAGE_YIELD) && negb (empty this) then
    Ret (false, [])
  else if empty this then
    Ret (true, [])
  else if has_missing_rates this then
    Ret (false, ["Pricing record has missing rates."%string])
  else
    public_key <- oracle_public_key nettype ;;
    ok <- verifySignature public_key this ;;
    if negb ok then
      Ret (false, ["Invalid pricing record signature."%string])
    else if add_u64 bl_timestamp PRICING_RECORD_VALID_TIME_DIFF_FROM_BLOCK <? timestamp this then
      Ret (false, ["Pricing record timestamp is too far in the future."%string])
    else if timestamp this <=? last_bl_timestamp then
      Ret (false,
           [("Pricing record timestamp: " ++ show_dec (timestamp this)
             ++ ", block timestamp: " ++ show_dec bl_timestamp)%string;
            "Pricing record timestamp is too old."%string])
    else
      Ret (true, []).

End Valid.

(** ** Binary blob *)

(** [sizeof(oracle::pricing_record)]: four 8-byte integers and the
    64-byte buffer, no padding. *)
Definition sizeof_pricing_record : N := 96.

(** The [n] low bytes of [v], least significant first. *)
Fixpoint le_bytes (n : nat) (v : N) : list byte :=
  match n with
  | O => []
  | S n' => char_of_long (Z.of_N v) :: le_bytes n' (v / 256)
  end.

(** The integer whose little-endian bytes are [bs]. *)
Fixpoint le_value (bs : list byte) : N :=
  match bs with
  | [] => 0
  | b :: bs' => Byte.to_N b + 256 * le_value bs'
  end.

(** Modelled from the spec: the header [oracle/pricing_record.h] with the
    member layout is absent.  The object representation is the four
    integers in declaration order, 8 bytes each, followed by the 64
    signature bytes; integers are stored least significant byte first. *)
Definition object_bytes (r : pricing_record) : list byte :=
  le_bytes 8 (pr_version r) ++ le_bytes 8 (spot r) ++
  le_bytes 8 (moving_average r) ++ le_bytes 8 (timestamp r) ++
  take 64 (signature r).

(** The object whose representation is [bs]. *)
Definition object_of_bytes (bs : list byte) : pricing_record :=
  mk_pricing_record
    (le_value (take 8 bs))
    (le_value (take 8 (drop 8 bs)))
    (le_value (take 8 (drop 16 bs)))
    (le_value (take 8 (drop 24 bs)))
    (take 64 (drop 32 bs)).

(** The interface of the [Archive<false>] template parameter, as far as
    [do_serialize] uses it.  [serialize_blob ar len buf] is the call
    [ar.serialize_blob(buf, len, delimiter)] on a destination holding [buf]; it
    gives the archive and the destination after the call. *)
Class ReadArchive (A : Type) := {
  remaining_bytes : A -> N;
  serialize_blob : A -> N -> list byte -> A * list byte;
  good : A -> bool
}.

(** Modelled from the spec: [serialization/binary_archive.h] is absent.  A
    reading binary archive is the bytes not yet consumed and a good flag.  A
    blob read of [len] bytes takes what is there, up to [len] bytes, copies
    it to the start of the destination and advances past it; the flag
    stays as it was only when all [len] bytes were there. *)
Record binary_archive := mk_binary_archive {
  bytes_ : list byte;
  good_ : bool
}.

#[export] Instance binary_archive_read : ReadArchive binary_archive := {
  remaining_bytes ar := N.of_nat (length (bytes_ ar));
  serialize_blob ar len buf :=
    let actual := N.min len (N.of_nat (length (bytes_ ar))) in
    (mk_binary_archive (drop (N.to_nat actual) (bytes_ ar))
       (good_ ar && (len =? actual)),
     take (N.to_nat actual) (bytes_ ar) ++ drop (N.to_nat actual) buf);
  good ar := good_ ar
}.

Section Blob.
Context {A : Type} `{ReadArchive A}.

(** [do_serialize(Archive<false> &ar, oracle::pricing_record &pr, uint8_t version)]:
    the returned [bool], the archive and [pr] after the call. *)
Definition do_serialize_read (ar : A) (pr : pricing_record) : bool * A * pricing_record :=
  if remaining_bytes ar <? sizeof_pricing_record then (false, ar, pr)
  else
    let '(ar, buf) := serialize_blob ar sizeof_pricing_record (object_bytes pr) in
    let pr := object_of_bytes buf in
    if negb (good ar) then (false, ar, pr)
    else (true, ar, pr).

End Blob.

(** ** The signed message, in the words of the specification

    A compact text object of the four named members, in the order
    [pr_version], [spot], [moving_average], [timestamp], each value a decimal
    integer, members separated by a comma, nothing else between the braces. *)

Definition json_member (name : string) (value : N) : string :=
  (dquote ++ name ++ dquote ++ ":" ++ show_dec value)%string.

Fixpoint join_commas (members : list string) : string :=
  match members with
  | [] => EmptyString
  | [m] => m
  | m :: rest => (m ++ "," ++ join_commas rest)%string
  end.

Definition signed_message_format (version spot_ movingAverage timestamp_ : N) : string :=
  ("{" ++ join_commas [json_member "pr_version" version;
                       json_member "spot" spot_;
                       json_member "moving_average" movingAverage;
                       json_member "timestamp" timestamp_] ++ "}")%string.

(** Every character of [s] satisfies [p]. *)
Fixpoint string_forallb (p : ascii -> bool) (s : string) : bool :=
  match s with
  | EmptyString => true
  | String c s' => p c && string_forallb p s'
  end.

(** The number a decimal numeral denotes, when [s] is one. *)
Definition decimal_value (s : string) : option N :=
  option_map N.of_uint (DecimalString.NilZero.uint_of_string s).

(** ** The hex text, in the words of the specification

    Each byte is two lowercase hex digits, high nibble first; the text of a
    buffer is the texts of its bytes in array order. *)

Definition hex_digit (d : N) : ascii :=
  if d <? 10 then ascii_of_N (48 + d) else ascii_of_N (87 + d).

Definition hex_pair (b : byte) : string :=
  String (hex_digit (Byte.to_N b / 16))
    (String (hex_digit (Byte.to_N b mod 16)) EmptyString).

Fixpoint hex_string (bs : list byte) : string :=
  match bs with
  | [] => EmptyString
  | b :: bs' => (hex_pair b ++ hex_string bs')%string
  end.

Definition is_lower_hex (c : ascii) : bool :=
  let n := N_of_ascii c in
  ((48 <=? n) && (n <=? 57)) || ((97 <=? n) && (n <=? 102)).

Definition is_hex_digit (c : ascii) : bool :=
  match hex_value c with Some _ => true | None => false end.

(** A text that decodes into exactly 64 bytes: 128 hex digits. *)
Definition decodes_to_64_bytes (s : string) : bool :=
  (String.length s =? 128)%nat && string_forallb is_hex_digit s.

(** ** A stand-in library and configuration for the examples

    The theorems below hold for every [OpenSSL] and [Config]; the examples
    need one of each.  The stand-in signature of a message under a key is
    64 copies of one byte, the low eight bits of the two lengths added. *)
Module Demo.

Definition sign (key message : string) : list byte :=
  repeat (char_of_long (Z.of_nat (String.length key + String.length message))) 64.

Definition pem_header : string := "-----BEGIN PUBLIC KEY-----".

Definition openssl : OpenSSL := {|
  EVP_PKEY := string;
  EVP_MD_CTX := string * string;
  BIO_new_mem_buf := fun _ => true;
  PEM_read_bio_PUBKEY := fun pem =>
    if String.prefix pem_header pem then Some pem else None;
  EVP_MD_CTX_create := Some (EmptyString, EmptyString);
  EVP_DigestVerifyInit := fun _ key => (1%Z, (key, EmptyString));
  EVP_DigestVerifyUpdate := fun ctx data => (1%Z, (fst ctx, (snd ctx ++ data)%string));
  EVP_DigestVerifyFinal := fun ctx sig =>
    if (memcmp sig (sign (fst ctx) (snd ctx)) 64 =? 0)%Z then 1%Z else 0%Z
|}.

Inductive network := MAINNET | TESTNET | STAGENET | FAKECHAIN | UNDEFINED.

Definition key : string := (pem_header ++ "demo")%string.

Definition config : Config := {|
  network_type := network;
  HF_VERSION_SLIPPAGE_YIELD := 2;
  PRICING_RECORD_VALID_TIME_DIFF_FROM_BLOCK := 120;
  oracle_public_key := fun n =>
    match n with
    | UNDEFINED => Throw "Invalid network type"
    | _ => Ret key
    end
|}.

(** The same library when no digest context can be allocated. *)
Definition openssl_no_context : OpenSSL := {|
  EVP_PKEY := string;
  EVP_MD_CTX := string * string;
  BIO_new_mem_buf := fun _ => true;
  PEM_read_bio_PUBKEY := fun pem =>
    if String.prefix pem_header pem then Some pem else None;
  EVP_MD_CTX_create := None;
  EVP_DigestVerifyInit := fun _ key => (1%Z, (key, EmptyString));
  EVP_DigestVerifyUpdate := fun ctx data => (1%Z, (fst ctx, (snd ctx ++ data)%string));
  EVP_DigestVerifyFinal := fun _ _ => 1%Z
|}.

(** The fields [version = 1], [spot = 100], [movingAverage = 95] with a
    timestamp, without and with the stand-in signature. *)
Definition fields (ts : N) : pricing_record :=
  mk_pricing_record 1 100 95 ts zero_signature.

Definition signed (ts : N) : pricing_record :=
  mk_pricing_record 1 100 95 ts (sign key (message (fields ts))).

Definition unsigned_record : pricing_record := fields 1000.
Definition signed_record : pricing_record := signed 1000.
Definition far_future_record : pricing_record := signed 2000000000000.

(** A present record without a spot rate. *)
Definition no_spot_record : pricing_record :=
  mk_pricing_record 1 0 95 1000 zero_signature.

(** Wire records whose signature text is not 128 hex digits. *)
Definition wire (text : string) : pr_serialized :=
  mk_pr_serialized 7 8 9 10 text.

(** A blob of 96 bytes followed by two more bytes. *)
Definition blob : list byte :=
  le_bytes 8 1 ++ le_bytes 8 100 ++ le_bytes 8 95 ++ le_bytes 8 1000 ++
  repeat x07 64 ++ [xff; xfe].

End Demo.

(** ** Copying a record *)

(** [memcpy(dst, src, n)] on a destination holding [dst]: its first [n]
    bytes become those of [src].  Both buffers of the callers have [n]
    bytes; a shorter source gives what it has. *)
Definition memcpy (dst src : list byte) (n : nat) : list byte :=
  take n src ++ drop n dst.

(** [pricing_record::pricing_record(const pricing_record& orig)].  The
    member array is not initialised before the [memcpy]; [uninit] is what
    it happens to hold. *)
Definition copy_construct (uninit : list byte) (orig : pricing_record) : pricing_record :=
  mk_pricing_record (pr_version orig) (spot orig) (moving_average orig)
    (timestamp orig) (memcpy uninit (signature orig) sizeof_signature).

(** [pricing_record::operator=]: the object after the assignment. *)
Definition assign (this orig : pricing_record) : pricing_record :=
  mk_pricing_record (pr_version orig) (spot orig) (moving_average orig)
    (timestamp orig) (memcpy (signature this) (signature orig) sizeof_signature).

(** ** Writing the binary blob *)

(** The interface of the [Archive<true>] template parameter, as far as
    [do_serialize] uses it.  [put_blob ar bytes] is the call
    [ar.serialize_blob(buf, len, delimiter)] with [bytes] the [len] bytes
    at [buf]; [good_w] is [ar.good()]. *)
Class WriteArchive (A : Type) := {
  begin_string : A -> A;
  put_blob : A -> list byte -> A;
  good_w : A -> bool;
  end_string : A -> A
}.

(** Modelled from the spec: [serialization/binary_archive.h] is absent.  A
    writing binary archive is the bytes written so far and the state of the
    stream; a blob write appends the bytes when the stream is good and does
    nothing otherwise; the string brackets write nothing. *)
Record binary_writer := mk_binary_writer {
  stream_ : list byte;
  stream_good : bool
}.

#[export] Instance binary_writer_write : WriteArchive binary_writer := {
  begin_string ar := ar;
  put_blob ar bytes :=
    if stream_good ar then mk_binary_writer (stream_ ar ++ bytes) true else ar;
  good_w ar := stream_good ar;
  end_string ar := ar
}.

Section BlobWrite.
Context {A : Type} `{WriteArchive A}.

(** [do_serialize(Archive<true> &ar, oracle::pricing_record &pr, uint8_t version)]:
    the returned [bool] and the archive after the call. *)
Definition do_serialize_write (ar : A) (pr : pricing_record) : bool * A :=
  let ar := begin_string ar in
  let ar := put_blob ar (take (N.to_nat sizeof_pricing_record) (object_bytes pr)) in
  if negb (good_w ar) then (false, ar)
  else
    let ar := end_string ar in
    (true, ar).

End BlobWrite.

(** ** Reading the hex text, in the words of the specification *)

Definition is_digit (c : ascii) : bool :=
  let n := N_of_ascii c in (48 <=? n) && (n <=? 57).

(** The byte two hex digits denote, high nibble first. *)
Definition byte_of_hex_digits (c1 c2 : ascii) : option byte :=
  match hex_value c1, hex_value c2 with
  | Some d1, Some d2 => Byte.of_N (Z.to_N (16 * d1 + d2))
  | _, _ => None
  end.

(** ** More stand-ins for the examples *)
Module Samples.

(** A key table whose main-net entry is the empty text. *)
Definition config_empty_key : Config := {|
  network_type := Demo.network;
  HF_VERSION_SLIPPAGE_YIELD := 2;
  PRICING_RECORD_VALID_TIME_DIFF_FROM_BLOCK := 120;
  oracle_public_key := fun n =>
    match n with
    | Demo.UNDEFINED => Throw "Invalid network type"
    | _ => Ret EmptyString
    end
|}.

(** 128 hex digits in both cases: the pairs [aB] and [3f], 32 times. *)
Fixpoint repeat_text (n : nat) (s : string) : string :=
  match n with
  | O => EmptyString
  | S n' => (s ++ repeat_text n' s)%string
  end.

Definition mixed_case_text : string := repeat_text 32 "aB3f".

(** A second record, with another signature. *)
Definition other_record : pricing_record :=
  mk_pricing_record 2 7 9 11 (repeat x5a 64).

End Samples.

(** * Properties *)

(** ** Admissibility policy *)

Section ValidFacts.
Context `{OpenSSL} `{Config}.

Variables (nettype : network_type) (hf_version bl_timestamp last_bl_timestamp : N).
Variable this : pricing_record.

Lemma valid_empty :
  empty this = true ->
  valid nettype hf_version bl_timestamp last_bl_timestamp this = Ret (true, []).
Proof.
  intros He. unfold valid. rewrite He. simpl.
  now rewrite andb_false_r.
Qed.

Lemma valid_before_activation :
  hf_version < HF_VERSION_SLIPPAGE_YIELD ->
  valid nettype hf_version bl_timestamp last_bl_timestamp this = Ret (empty this, []).
Proof.
  intros Hlt. apply N.ltb_lt in Hlt. unfold valid. rewrite Hlt.
  destruct (empty this); reflexivity.
Qed.

(** The unfolding of [valid] once the version gate and the emptiness test
    are behind: the rest of the decision. *)
Lemma valid_present :
  HF_VERSION_SLIPPAGE_YIELD <= hf_version ->
  empty this = false ->
  valid nettype hf_version bl_timestamp last_bl_timestamp this =
  if has_missing_rates this then
    Ret (false, ["Pricing record has missing rates."%string])
  else
    public_key <- oracle_public_key nettype ;;
    ok <- verifySignature public_key this ;;
    if negb ok then
      Ret (false, ["Invalid pricing record signature."%string])
    else if add_u64 bl_timestamp PRICING_RECORD_VALID_TIME_DIFF_FROM_BLOCK <? timestamp this then
      Ret (false, ["Pricing record timestamp is too far in the future."%string])
    else if timestamp this <=? last_bl_timestamp then
      Ret (false,
           [("Pricing record timestamp: " ++ show_dec (timestamp this)
             ++ ", block timestamp: " ++ show_dec bl_timestamp)%string;
            "Pricing record timestamp is too old."%string])
    else
      Ret (true, []).
Proof.
  intros Hge He. unfold valid. rewrite He.
  apply N.ltb_ge in Hge. rewrite Hge. reflexivity.
Qed.

Lemma has_missing_rates_false :
  spot this <> 0 -> moving_average this <> 0 -> has_missing_rates this = false.
Proof.
  intros Hs Hm. unfold has_missing_rates.
  apply N.eqb_neq in Hs. apply N.eqb_neq in Hm. now rewrite Hs, Hm.
Qed.

Lemma add_u64_le a b : add_u64 a b <= a + b.
Proof. unfold add_u64. apply N.Div0.mod_le. Qed.

(** C3. Below the activation version [valid] returns exactly the emptiness
    of the record, whatever the network, the timestamps and the library do;
    and an empty record is accepted under every protocol version, network
    type, block timestamp and previous block timestamp. *)
Theorem valid_below_activation_iff_empty :
  (hf_version < HF_VERSION_SLIPPAGE_YIELD ->
     (valid nettype hf_version bl_timestamp last_bl_timestamp this = Ret (true, [])
        <-> empty this = true) /\
     (valid nettype hf_version bl_timestamp last_bl_timestamp this = Ret (false, [])
        <-> empty this = false)) /\
  (empty this = true ->
     valid nettype hf_version bl_timestamp last_bl_timestamp this = Ret (true, [])).
Proof.
  split.
  - intros Hlt. rewrite (valid_before_activation Hlt).
    destruct (empty this); split; split; intros E; try reflexivity; try discriminate E.
  - apply valid_empty.
Qed.

(** C6, as amended. A present record with both rates and a verifying
    signature is rejected whenever its timestamp exceeds the block
    timestamp plus the tolerance, the sum being taken in the unbounded
    naturals; at or above the activation version the logged reason is the
    future-timestamp one. *)
Theorem valid_rejects_future_timestamp (public_key : string) :
  empty this = false ->
  spot this <> 0 ->
  moving_average this <> 0 ->
  oracle_public_key nettype = Ret public_key ->
  verifySignature public_key this = Ret true ->
  bl_timestamp + PRICING_RECORD_VALID_TIME_DIFF_FROM_BLOCK < timestamp this ->
  (exists log,
     valid nettype hf_version bl_timestamp last_bl_timestamp this = Ret (false, log)) /\
  (HF_VERSION_SLIPPAGE_YIELD <= hf_version ->
     valid nettype hf_version bl_timestamp last_bl_timestamp this =
     Ret (false, ["Pricing record timestamp is too far in the future."%string])).
Proof.
  intros He Hs Hm Hk Hv Hfut.
  assert (Hwrap : (add_u64 bl_timestamp PRICING_RECORD_VALID_TIME_DIFF_FROM_BLOCK
                    <? timestamp this) = true).
  { apply N.ltb_lt. eapply N.le_lt_trans; [apply add_u64_le | exact Hfut]. }
  assert (Hact : HF_VERSION_SLIPPAGE_YIELD <= hf_version ->
     valid nettype hf_version bl_timestamp last_bl_timestamp this =
     Ret (false, ["Pricing record timestamp is too far in the future."%string])).
  { intros Hge. rewrite (valid_present Hge He).
    rewrite (has_missing_rates_false Hs Hm), Hk. simpl. rewrite Hv. simpl.
    now rewrite Hwrap. }
  split; [| exact Hact].
  destruct (N.lt_ge_cases hf_version HF_VERSION_SLIPPAGE_YIELD) as [Hlt | Hge].
  - exists []. rewrite (valid_before_activation Hlt). now rewrite He.
  - eexists. exact (Hact Hge).
Qed.

(** C7, as amended. At or above the activation version, a present record
    with both rates and a verifying signature that passes the future-skew
    test of [valid] (the 64-bit sum) is rejected exactly when its timestamp
    is not above the previous block timestamp, with the stale-timestamp
    reason; otherwise it is accepted, so an accepted timestamp strictly
    exceeds the previous block timestamp. *)
Theorem valid_timestamp_not_advancing (public_key : string) :
  HF_VERSION_SLIPPAGE_YIELD <= hf_version ->
  empty this = false ->
  has_missing_rates this = false ->
  oracle_public_key nettype = Ret public_key ->
  verifySignature public_key this = Ret true ->
  timestamp this <= add_u64 bl_timestamp PRICING_RECORD_VALID_TIME_DIFF_FROM_BLOCK ->
  (timestamp this <= last_bl_timestamp ->
     valid nettype hf_version bl_timestamp last_bl_timestamp this =
     Ret (false,
          [("Pricing record timestamp: " ++ show_dec (timestamp this)
            ++ ", block timestamp: " ++ show_dec bl_timestamp)%string;
           "Pricing record timestamp is too old."%string])) /\
  (last_bl_timestamp < timestamp this ->
     valid nettype hf_version bl_timestamp last_bl_timestamp this = Ret (true, [])) /\
  ((exists log,
      valid nettype hf_version bl_timestamp last_bl_timestamp this = Ret (false, log))
     <-> timestamp this <= last_bl_timestamp).
Proof.
  intros Hge He Hr Hk Hv Hskew.
  assert (Hunf : valid nettype hf_version bl_timestamp last_bl_timestamp this =
                 if timestamp this <=? last_bl_timestamp then
                   Ret (false,
                     [("Pricing record timestamp: " ++ show_dec (timestamp this)
                       ++ ", block timestamp: " ++ show_dec bl_timestamp)%string;
                      "Pricing record timestamp is too old."%string])
                 else Ret (true, [])).
  { rewrite (valid_present Hge He), Hr, Hk. simpl. rewrite Hv. simpl.
    apply N.ltb_ge in Hskew. now rewrite Hskew. }
  rewrite Hunf. repeat split.
  - intros Hle. apply N.leb_le in Hle. now rewrite Hle.
  - intros Hlt. apply N.leb_gt in Hlt. now rewrite Hlt.
  - intros [log Hlog]. destruct (timestamp this <=? last_bl_timestamp) eqn:E.
    + now apply N.leb_le.
    + discriminate Hlog.
  - intros Hle. apply N.leb_le in Hle. rewrite Hle. eexists. reflexivity.
Qed.

(** C8. At or above the activation version, a present record with a zero
    spot or a zero moving average is rejected with the missing-rates
    reason.  Neither the key lookup nor the library occurs in the result:
    it is the same for every [OpenSSL] and every [Config] key table, also
    for those under which [verifySignature] would throw. *)
Theorem valid_missing_rates :
  HF_VERSION_SLIPPAGE_YIELD <= hf_version ->
  empty this = false ->
  spot this = 0 \/ moving_average this = 0 ->
  valid nettype hf_version bl_timestamp last_bl_timestamp this =
  Ret (false, ["Pricing record has missing rates."%string]).
Proof.
  intros Hge He Hz. rewrite (valid_present Hge He).
  assert (Hm : has_missing_rates this = true).
  { unfold has_missing_rates. destruct Hz as [-> | ->]; simpl.
    - reflexivity.
    - apply orb_true_r. }
  now rewrite Hm.
Qed.

End ValidFacts.

(** ** Signature verification *)

Lemma length_zero_empty (s : string) : (String.length s =? 0)%nat = true <-> s = EmptyString.
Proof.
  destruct s; simpl; split; intros E; try reflexivity; discriminate E.
Qed.

Section VerifyFacts.
Context `{OpenSSL}.
Variables (public_key : string) (this : pricing_record).

Lemma verifySignature_empty_key :
  public_key = EmptyString ->
  exists what, verifySignature public_key this = Throw what.
Proof. intros ->. eexists. reflexivity. Qed.

(** With a key text that is present and parses, the verdict is the test
    [ret == 1] on the digest block, unless the memory buffer for the key
    text could not be allocated. *)
Lemma verifySignature_usable_key (pubkey : EVP_PKEY) :
  public_key <> EmptyString ->
  PEM_read_bio_PUBKEY public_key = Some pubkey ->
  verifySignature public_key this =
  Ret (BIO_new_mem_buf public_key &&
       (digest_verify pubkey (message this) (signature this) =? 1)%Z).
Proof.
  intros Hne Hpem. unfold verifySignature.
  destruct (String.length public_key =? 0)%nat eqn:E.
  - apply length_zero_empty in E. contradiction.
  - destruct (BIO_new_mem_buf public_key); simpl; [| reflexivity].
    rewrite Hpem. now destruct (_ =? 1)%Z.
Qed.

Lemma verifySignature_throw_inv (what : string) :
  verifySignature public_key this = Throw what ->
  public_key = EmptyString \/
  (BIO_new_mem_buf public_key = true /\ PEM_read_bio_PUBKEY public_key = None).
Proof.
  unfold verifySignature.
  destruct (String.length public_key =? 0)%nat eqn:E.
  - intros _. left. now apply length_zero_empty.
  - destruct (BIO_new_mem_buf public_key); simpl; [| discriminate].
    destruct (PEM_read_bio_PUBKEY public_key); [| now right].
    destruct (_ =? 1)%Z; discriminate.
Qed.

(** C5. [verifySignature] throws only on an empty key text or one that does
    not parse, and it does throw on an empty text and on a text that was
    read and does not parse; with a key that is present and parses it
    returns, and returns [false], when no digest context can be created,
    when the context initialisation or the update does not report [1], and
    when the final check of the signature does not report [1]. *)
Theorem verifySignature_failure_modes :
  ((exists what, verifySignature public_key this = Throw what) ->
     public_key = EmptyString \/ PEM_read_bio_PUBKEY public_key = None) /\
  (public_key = EmptyString \/
   (BIO_new_mem_buf public_key = true /\ PEM_read_bio_PUBKEY public_key = None) ->
     exists what, verifySignature public_key this = Throw what) /\
  (forall pubkey : EVP_PKEY,
     public_key <> EmptyString ->
     PEM_read_bio_PUBKEY public_key = Some pubkey ->
     (exists b, verifySignature public_key this = Ret b) /\
     (EVP_MD_CTX_create = None ->
        verifySignature public_key this = Ret false) /\
     (forall ctx ret ctx1,
        EVP_MD_CTX_create = Some ctx ->
        EVP_DigestVerifyInit ctx pubkey = (ret, ctx1) ->
        ret <> 1%Z ->
        verifySignature public_key this = Ret false) /\
     (forall ctx ctx1 ret ctx2,
        EVP_MD_CTX_create = Some ctx ->
        EVP_DigestVerifyInit ctx pubkey = (1%Z, ctx1) ->
        EVP_DigestVerifyUpdate ctx1 (message this) = (ret, ctx2) ->
        ret <> 1%Z ->
        verifySignature public_key this = Ret false) /\
     (forall ctx ctx1 ctx2,
        EVP_MD_CTX_create = Some ctx ->
        EVP_DigestVerifyInit ctx pubkey = (1%Z, ctx1) ->
        EVP_DigestVerifyUpdate ctx1 (message this) = (1%Z, ctx2) ->
        EVP_DigestVerifyFinal ctx2 (take 64 (signature this)) <> 1%Z ->
        verifySignature public_key this = Ret false)).
Proof.
  split; [| split].
  - intros [what Hthrow]. apply verifySignature_throw_inv in Hthrow.
    destruct Hthrow as [E | [_ E]]; [now left | now right].
  - intros [E | [Hbio Hpem]]; [now apply verifySignature_empty_key |].
    unfold verifySignature.
    destruct (String.length public_key =? 0)%nat; [eexists; reflexivity |].
    rewrite Hbio, Hpem. eexists. reflexivity.
  - intros pubkey Hne Hpem. rewrite (verifySignature_usable_key pubkey Hne Hpem).
    assert (Hfalse : forall b, digest_verify pubkey (message this) (signature this) <> 1%Z ->
              Ret (b && (digest_verify pubkey (message this) (signature this) =? 1)%Z)
              = @Ret bool false).
    { intros b Hd. apply Z.eqb_neq in Hd. rewrite Hd. now rewrite andb_false_r. }
    split; [eexists; reflexivity |].
    repeat split.
    + intros Hc. apply Hfalse. unfold digest_verify. now rewrite Hc.
    + intros ctx ret ctx1 Hc Hi Hr. apply Hfalse. unfold digest_verify.
      rewrite Hc, Hi. apply Z.eqb_neq in Hr. now rewrite Hr, <- Z.eqb_neq.
    + intros ctx ctx1 ret ctx2 Hc Hi Hu Hr. apply Hfalse. unfold digest_verify.
      rewrite Hc, Hi. simpl. rewrite Hu. apply Z.eqb_neq in Hr.
      now rewrite Hr, <- Z.eqb_neq.
    + intros ctx ctx1 ctx2 Hc Hi Hu Hf. apply Hfalse. unfold digest_verify.
      rewrite Hc, Hi. simpl. now rewrite Hu.
Qed.

End VerifyFacts.

(** ** The signed message *)

Lemma string_app_assoc (a b c : string) : ((a ++ b) ++ c = a ++ (b ++ c))%string.
Proof. induction a as [| x a IH]; simpl; [reflexivity | now rewrite IH]. Qed.

Lemma string_forallb_app (p : ascii -> bool) (a b : string) :
  string_forallb p (a ++ b) = string_forallb p a && string_forallb p b.
Proof.
  induction a as [| x a IH]; simpl; [reflexivity |].
  now rewrite IH, andb_assoc.
Qed.

Lemma show_dec_no_space (n : N) :
  string_forallb (fun c => negb (isspace c)) (show_dec n) = true.
Proof.
  unfold show_dec, DecimalString.NilZero.string_of_uint.
  assert (Hd : forall d, string_forallb (fun c => negb (isspace c))
                           (DecimalString.NilEmpty.string_of_uint d) = true).
  { induction d; simpl; auto. }
  destruct (N.to_uint n); try apply Hd. reflexivity.
Qed.

Lemma decimal_value_show_dec (n : N) : decimal_value (show_dec n) = Some n.
Proof.
  unfold decimal_value, show_dec.
  rewrite DecimalString.NilZero.usu.
  - simpl. now rewrite DecimalN.Unsigned.of_to.
  - destruct n as [| p]; simpl; [discriminate |].
    apply DecimalPos.Unsigned.to_uint_nonnil.
Qed.

Lemma message_signed_message_format (this : pricing_record) :
  message this =
  signed_message_format (pr_version this) (spot this)
    (moving_average this) (timestamp this).
Proof.
  unfold message, signed_message_format, join_commas, json_member, put.
  repeat first [rewrite string_app_assoc | progress simpl].
  reflexivity.
Qed.

Section MessageFacts.
Context `{OpenSSL}.
Variable this : pricing_record.

(** C4. The text that [verifySignature] hands to the digest is the compact
    object of the four members [pr_version], [spot], [moving_average],
    [timestamp], in this order; it holds no white space; each value is the
    decimal numeral of the member; a record that differs in the signature
    bytes only has the same text; and with a key that is present and parses
    the verdict is the digest check of exactly this text against the
    signature bytes. *)
Theorem verifySignature_message_format :
  message this =
    signed_message_format (pr_version this) (spot this)
      (moving_average this) (timestamp this) /\
  string_forallb (fun c => negb (isspace c)) (message this) = true /\
  (forall n, decimal_value (show_dec n) = Some n) /\
  (forall sig,
     message (mk_pricing_record (pr_version this) (spot this)
                (moving_average this) (timestamp this) sig) = message this) /\
  (forall public_key pubkey,
     public_key <> EmptyString ->
     BIO_new_mem_buf public_key = true ->
     PEM_read_bio_PUBKEY public_key = Some pubkey ->
     verifySignature public_key this =
     Ret (digest_verify pubkey
            (signed_message_format (pr_version this) (spot this)
               (moving_average this) (timestamp this))
            (signature this) =? 1)%Z).
Proof.
  split; [apply message_signed_message_format |].
  split.
  { unfold message, put. rewrite !string_forallb_app, !show_dec_no_space.
    reflexivity. }
  split; [apply decimal_value_show_dec |].
  split; [reflexivity |].
  intros public_key pubkey Hne Hbio Hpem.
  rewrite (verifySignature_usable_key public_key this pubkey Hne Hpem), Hbio.
  now rewrite message_signed_message_format.
Qed.

End MessageFacts.

(** ** The decoding loop *)

Lemma shiftr_double (k : nat) : N.shiftr (N.of_nat (2 * k)) 1 = N.of_nat k.
Proof.
  rewrite N.shiftr_div_pow2. change (2 ^ 1) with 2.
  replace (N.of_nat (2 * k)) with (N.of_nat k * 2) by lia.
  apply N.div_mul. discriminate.
Qed.

Lemma add_u32_double (k : nat) :
  (k <= 64)%nat -> add_u32 (N.of_nat (2 * k)) 2 = N.of_nat (2 * S k).
Proof.
  intros Hk. unfold add_u32, two32. rewrite N.mod_small.
  - lia.
  - apply N.lt_le_trans with (m := 200); [lia | now vm_compute].
Qed.

Lemma buf_write_in (sig : list byte) (i : nat) (b : byte) :
  (i < length sig)%nat -> buf_write sig i b = Some (<[i:=b]> sig).
Proof. intros Hi. unfold buf_write. now rewrite decide_True. Qed.

Lemma buf_write_out (sig : list byte) (i : nat) (b : byte) :
  (length sig <= i)%nat -> buf_write sig i b = None.
Proof. intros Hi. unfold buf_write. rewrite decide_False; [reflexivity | lia]. Qed.

Section LoopFacts.
Variable s : string.

(** With a text of at most 128 characters every write lands in the buffer:
    the loop ends and has written chunk [j] to byte [j] for every chunk
    that starts inside the text, from chunk [k] on. *)
Lemma load_loop_in_bounds (fuel : nat) :
  forall (k : nat) (sig : list byte),
    (String.length s <= 128)%nat ->
    length sig = 64%nat ->
    (2 * k <= String.length s + 1)%nat ->
    (String.length s + 2 <= 2 * k + 2 * fuel)%nat ->
    exists sig',
      load_loop fuel s (N.of_nat (2 * k)) sig = LoopDone sig' /\
      length sig' = 64%nat /\
      forall j : nat,
        sig' !! j =
        if (k <=? j)%nat && (2 * j <? String.length s)%nat
        then Some (hex_chunk s (N.of_nat (2 * j))) else sig !! j.
Proof.
  induction fuel as [| fuel IH]; intros k sig HL Hsig Hk Hfuel.
  - lia.
  - cbn [load_loop].
    destruct (N.ltb_spec (N.of_nat (2 * k)) (N.of_nat (String.length s))) as [Hlt | Hge].
    + rewrite shiftr_double, Nat2N.id.
      rewrite buf_write_in by lia.
      rewrite add_u32_double by lia.
      destruct (IH (S k) (<[k:=hex_chunk s (N.of_nat (2 * k))]> sig))
        as (sig' & Hrun & Hlen & Hget); try lia.
      { now rewrite length_insert. }
      exists sig'. split; [exact Hrun |]. split; [exact Hlen |].
      intros j. rewrite Hget.
      destruct (Nat.eq_dec j k) as [-> | Hne].
      * replace (S k <=? k)%nat with false by (symmetry; apply Nat.leb_gt; lia).
        replace (2 * k <? String.length s)%nat with true
          by (symmetry; apply Nat.ltb_lt; lia).
        rewrite Nat.leb_refl. cbn [andb].
        rewrite list_lookup_insert_eq by lia. reflexivity.
      * rewrite list_lookup_insert_ne by congruence.
        replace (S k <=? j)%nat with (k <=? j)%nat; [reflexivity |].
        destruct (Nat.leb_spec k j), (Nat.leb_spec (S k) j); try reflexivity; lia.
    + exists sig. split; [reflexivity |]. split; [exact Hsig |].
      intros j.
      destruct (Nat.leb_spec k j); cbn [andb]; [| reflexivity].
      replace (2 * j <? String.length s)%nat with false
        by (symmetry; apply Nat.ltb_ge; lia).
      reflexivity.
Qed.

(** With a longer text the counter reaches 128 and the write through index
    64 is past the end of the buffer. *)
Lemma load_loop_out_of_bounds (fuel : nat) :
  forall (k : nat) (sig : list byte),
    (128 < String.length s)%nat ->
    length sig = 64%nat ->
    (k <= 64)%nat ->
    (String.length s + 2 <= 2 * k + 2 * fuel)%nat ->
    load_loop fuel s (N.of_nat (2 * k)) sig = LoopOutOfBounds 64.
Proof.
  induction fuel as [| fuel IH]; intros k sig HL Hsig Hk Hfuel.
  - lia.
  - cbn [load_loop].
    destruct (N.ltb_spec (N.of_nat (2 * k)) (N.of_nat (String.length s))) as [Hlt | Hge];
      [| lia].
    rewrite shiftr_double, Nat2N.id.
    destruct (Nat.eq_dec k 64%nat) as [-> | Hne].
    + rewrite buf_write_out by lia. reflexivity.
    + rewrite buf_write_in by lia.
      rewrite add_u32_double by lia.
      apply IH; try lia. now rewrite length_insert.
Qed.

Lemma fromHex_in_bounds (dest : list byte) :
  (String.length s <= 128)%nat ->
  length dest = 64%nat ->
  exists sig',
    fromHex s dest = LoopDone sig' /\
    length sig' = 64%nat /\
    forall j : nat,
      sig' !! j =
      if (2 * j <? String.length s)%nat
      then Some (hex_chunk s (N.of_nat (2 * j))) else dest !! j.
Proof.
  intros HL Hdest. unfold fromHex.
  destruct (load_loop_in_bounds (S (String.length s)) 0 dest HL Hdest)
    as (sig' & Hrun & Hlen & Hget); try lia.
  exists sig'. repeat split; try assumption.
Qed.

Lemma fromHex_out_of_bounds (dest : list byte) :
  (128 < String.length s)%nat ->
  length dest = 64%nat ->
  fromHex s dest = LoopOutOfBounds 64.
Proof.
  intros HL Hdest. unfold fromHex.
  apply (load_loop_out_of_bounds (S (String.length s)) 0 dest HL Hdest); lia.
Qed.

(** The fuel given by [fromHex] is never exhausted. *)
Lemma fromHex_fuel (dest : list byte) :
  length dest = 64%nat -> fromHex s dest <> LoopOutOfFuel.
Proof.
  intros Hdest.
  destruct (Nat.le_gt_cases (String.length s) 128) as [HL | HL].
  - destruct (fromHex_in_bounds dest HL Hdest) as (sig' & -> & _). discriminate.
  - rewrite (fromHex_out_of_bounds dest HL Hdest). discriminate.
Qed.

End LoopFacts.

(** ** Rendering and reading back one byte *)

Lemma hex_of_byte_pair (b : byte) : hex_of_byte b = hex_pair b.
Proof. destruct b; reflexivity. Qed.

Lemma hex_pair_read_back (b : byte) :
  char_of_long (strtol16 (c_str (hex_pair b))) = b.
Proof. destruct b; reflexivity. Qed.

Lemma hex_pair_lower (b : byte) : string_forallb is_lower_hex (hex_pair b) = true.
Proof. destruct b; reflexivity. Qed.

(** ** Rendering a buffer *)

Lemma sig_hex_loop_hex_string (n : nat) :
  forall (i : nat) (sig : list byte),
    sig_hex_loop n i sig = hex_string (take n (drop i sig)).
Proof.
  induction n as [| n IH]; intros i sig; [reflexivity |].
  cbn [sig_hex_loop]. rewrite IH.
  destruct (sig !! i) as [b |] eqn:Hb.
  - rewrite (drop_S sig b i Hb). cbn [take hex_string].
    now rewrite hex_of_byte_pair.
  - apply lookup_ge_None in Hb.
    rewrite (drop_ge sig i) by lia. rewrite (drop_ge sig (S i)) by lia.
    now rewrite take_nil.
Qed.

Lemma toHex_hex_string (sig : list byte) :
  length sig = 64%nat -> toHex sig = hex_string sig.
Proof.
  intros Hlen. unfold toHex. rewrite sig_hex_loop_hex_string.
  rewrite drop_0, take_ge by lia. reflexivity.
Qed.

Lemma hex_string_length (bs : list byte) :
  String.length (hex_string bs) = (2 * length bs)%nat.
Proof.
  induction bs as [| b bs IH]; [reflexivity |].
  cbn [hex_string hex_pair append String.length length]. lia.
Qed.

Lemma hex_string_lower (bs : list byte) :
  string_forallb is_lower_hex (hex_string bs) = true.
Proof.
  induction bs as [| b bs IH]; [reflexivity |].
  cbn [hex_string]. now rewrite string_forallb_app, hex_pair_lower, IH.
Qed.

Lemma hex_string_substring (bs : list byte) :
  forall (j : nat) (b : byte),
    bs !! j = Some b -> substring (2 * j) 2 (hex_string bs) = hex_pair b.
Proof.
  induction bs as [| x bs IH]; intros j b Hj; [discriminate Hj |].
  destruct j as [| j].
  - injection Hj as ->. cbn [hex_string hex_pair append Nat.mul substring].
    now destruct (hex_string bs).
  - replace (2 * S j)%nat with (S (S (2 * j))) by lia.
    cbn [hex_string hex_pair append substring]. now apply IH.
Qed.

Lemma hex_chunk_hex_string (bs : list byte) (j : nat) (b : byte) :
  bs !! j = Some b -> hex_chunk (hex_string bs) (N.of_nat (2 * j)) = b.
Proof.
  intros Hj. unfold hex_chunk. rewrite Nat2N.id.
  rewrite (hex_string_substring bs j b Hj). apply hex_pair_read_back.
Qed.

(** [toHex] followed by the decoding loop gives the buffer back, whatever
    the destination held. *)
Lemma fromHex_toHex (sig dest : list byte) :
  length sig = 64%nat -> length dest = 64%nat ->
  fromHex (toHex sig) dest = LoopDone sig.
Proof.
  intros Hsig Hdest. rewrite (toHex_hex_string sig Hsig).
  assert (HL : String.length (hex_string sig) = 128%nat)
    by (rewrite hex_string_length; lia).
  destruct (fromHex_in_bounds (hex_string sig) dest) as (sig' & Hrun & Hlen & Hget);
    [lia | exact Hdest |].
  rewrite Hrun. f_equal. apply list_eq. intros j. rewrite Hget, HL.
  destruct (Nat.ltb_spec (2 * j) 128) as [Hj | Hj].
  - destruct (lookup_lt_is_Some_2 sig j) as [b Hb]; [lia |].
    rewrite Hb. f_equal. now apply hex_chunk_hex_string.
  - rewrite (lookup_ge_None_2 sig j) by lia.
    apply lookup_ge_None_2. lia.
Qed.

(** ** Equality of records *)

Lemma memcmp_refl (a : list byte) (n : nat) : memcmp a a n = 0%Z.
Proof.
  revert a. induction n as [| n IH]; intros [| x a]; try reflexivity.
  cbn [memcmp]. now rewrite (Byte.byte_dec_lb (x:=x) (y:=x) eq_refl).
Qed.

Lemma memcmp_zero_eq (n : nat) :
  forall a b : list byte,
    length a = n -> length b = n -> memcmp a b n = 0%Z -> a = b.
Proof.
  induction n as [| n IH]; intros a b Ha Hb Hcmp.
  - destruct a, b; try discriminate. reflexivity.
  - destruct a as [| x a], b as [| y b]; try discriminate.
    cbn [memcmp] in Hcmp. destruct (Byte.eqb x y) eqn:E.
    + apply Byte.byte_dec_bl in E. subst y. f_equal.
      apply IH; [simpl in Ha; lia | simpl in Hb; lia | exact Hcmp].
    + apply Byte.eqb_false in E. exfalso. apply E.
      assert (Hn : Byte.to_N x = Byte.to_N y) by lia.
      pose proof (Byte.of_to_N x) as Hx. rewrite Hn, Byte.of_to_N in Hx.
      congruence.
Qed.

Lemma equal_refl (r : pricing_record) : equal r r = true.
Proof.
  unfold equal. rewrite !N.eqb_refl, memcmp_refl. reflexivity.
Qed.

Lemma equal_eq (a b : pricing_record) :
  wf_record a -> wf_record b -> equal a b = true -> a = b.
Proof.
  unfold wf_record, equal. intros Ha Hb He.
  repeat (apply andb_true_iff in He; destruct He as [He ?]).
  destruct a, b; simpl in *.
  repeat match goal with
         | E : (_ =? _) = true |- _ => apply N.eqb_eq in E
         | E : (_ =? _)%Z = true |- _ => apply Z.eqb_eq in E
         end.
  subst. f_equal. now apply (memcmp_zero_eq sizeof_signature).
Qed.

(** ** Wire decoding *)

Section LoadFacts.
Variables (inp : pr_serialized) (this : pricing_record).
Hypothesis this_wf : wf_record this.

(** C1, as amended. [_load] returns [false] only when the container-level
    load of the wire fields does, and then leaves the record as it was; it
    does not examine the signature text.  Every text of at most 128
    characters is accepted: the integer members are copied, byte [j] of the
    buffer becomes what [strtol] reads in base 16 from the chunk of at most
    two characters at offset [2 * j], for every chunk that starts inside the
    text, and the bytes after those keep what the buffer held before. *)
Theorem _load_accepts_any_short_signature :
  _load None this = LoadFalse this /\
  ((String.length (w_signature inp) <= 128)%nat ->
   exists sig',
     _load (Some inp) this =
       LoadTrue (mk_pricing_record (w_pr_version inp) (w_spot inp)
                   (w_moving_average inp) (w_timestamp inp) sig') /\
     length sig' = 64%nat /\
     forall j : nat,
       sig' !! j =
       if (2 * j <? String.length (w_signature inp))%nat
       then Some (hex_chunk (w_signature inp) (N.of_nat (2 * j)))
       else signature this !! j).
Proof.
  split; [reflexivity |].
  intros HL.
  destruct (fromHex_in_bounds (w_signature inp) (signature this) HL this_wf)
    as (sig' & Hrun & Hlen & Hget).
  exists sig'. unfold _load. rewrite Hrun. auto.
Qed.

(** C2. The writes of the decoding loop all stay inside the 64-byte buffer
    exactly when the signature text has at most 128 characters; with a
    longer text the loop reaches index 64, above the last index 63, and the
    buffer write takes its out-of-range branch there. *)
Theorem _load_writes_in_bounds_iff :
  ((exists this', _load (Some inp) this = LoadTrue this')
     <-> (String.length (w_signature inp) <= 128)%nat) /\
  (forall index,
     _load (Some inp) this = LoadOutOfBounds index ->
     (128 < String.length (w_signature inp))%nat /\ 63 < index) /\
  ((128 < String.length (w_signature inp))%nat ->
     _load (Some inp) this = LoadOutOfBounds 64 /\
     forall b, buf_write (signature this) 64 b = None).
Proof.
  assert (Hin : (String.length (w_signature inp) <= 128)%nat ->
                exists this', _load (Some inp) this = LoadTrue this').
  { intros HL.
    destruct (fromHex_in_bounds (w_signature inp) (signature this) HL this_wf)
      as (sig' & Hrun & _).
    eexists. unfold _load. rewrite Hrun. reflexivity. }
  assert (Hout : (128 < String.length (w_signature inp))%nat ->
                 _load (Some inp) this = LoadOutOfBounds 64).
  { intros HL. unfold _load.
    now rewrite (fromHex_out_of_bounds (w_signature inp) (signature this) HL this_wf). }
  split; [split |]; [| exact Hin | split].
  - intros [this' Hrun].
    destruct (Nat.le_gt_cases (String.length (w_signature inp)) 128) as [HL | HL];
      [exact HL |].
    rewrite (Hout HL) in Hrun. discriminate Hrun.
  - intros index Hrun.
    destruct (Nat.le_gt_cases (String.length (w_signature inp)) 128) as [HL | HL].
    + destruct (Hin HL) as [this' Hok]. rewrite Hok in Hrun. discriminate Hrun.
    + rewrite (Hout HL) in Hrun. injection Hrun as <-. split; [exact HL | lia].
  - intros HL. split; [exact (Hout HL) |].
    intros b. apply buf_write_out. unfold wf_record, sizeof_signature in this_wf. lia.
Qed.

End LoadFacts.

(** C9. Storing a record and loading the stored form, into any receiving
    record, gives the record back, and [equal] holds between the two; the
    stored signature text is the 128 lowercase hex digits of the 64 bytes,
    high nibble first; and the rendering loop followed by the decoding loop
    is the identity on a 64-byte buffer. *)
Theorem store_load_roundtrip (r this : pricing_record) :
  wf_record r ->
  wf_record this ->
  (exists r', _load (Some (store r)) this = LoadTrue r' /\
              equal r' r = true /\ r' = r) /\
  w_signature (store r) = hex_string (signature r) /\
  String.length (w_signature (store r)) = 128%nat /\
  string_forallb is_lower_hex (w_signature (store r)) = true /\
  fromHex (toHex (signature r)) (signature this) = LoopDone (signature r).
Proof.
  intros Hr Hthis.
  pose proof (fromHex_toHex (signature r) (signature this) Hr Hthis) as Hrt.
  assert (Hhex : w_signature (store r) = hex_string (signature r)).
  { simpl. now apply toHex_hex_string. }
  split.
  - exists r. split; [| split; [apply equal_refl | reflexivity]].
    unfold _load. cbn [store w_signature w_pr_version w_spot w_moving_average w_timestamp].
    rewrite Hrt. now destruct r.
  - split; [exact Hhex |]. rewrite Hhex. split.
    + rewrite hex_string_length. unfold wf_record, sizeof_signature in Hr. lia.
    + split; [apply hex_string_lower | exact Hrt].
Qed.

(** ** Binary blob *)

Lemma char_of_long_byte (b : byte) (v : N) :
  char_of_long (Z.of_N (Byte.to_N b + 256 * v)) = b.
Proof.
  unfold char_of_long.
  pose proof (Byte.to_N_bounded b) as Hb.
  assert (E : Z.to_N (Z.of_N (Byte.to_N b + 256 * v) mod 256) = Byte.to_N b).
  { rewrite <- (N2Z.id (Byte.to_N b)) at 2. f_equal.
    rewrite N2Z.inj_add, N2Z.inj_mul. change (Z.of_N 256) with 256%Z.
    rewrite (Z.mul_comm 256), Z.mod_add by lia. apply Z.mod_small. lia. }
  now rewrite E, Byte.of_to_N.
Qed.

Lemma le_bytes_le_value (bs : list byte) :
  le_bytes (length bs) (le_value bs) = bs.
Proof.
  induction bs as [| b bs IH]; [reflexivity |].
  cbn [length le_value le_bytes]. rewrite char_of_long_byte. f_equal.
  pose proof (Byte.to_N_bounded b) as Hb.
  rewrite (N.mul_comm 256), N.div_add by discriminate.
  rewrite N.div_small by lia. exact IH.
Qed.

(** Reading an object and writing it again gives the 96 bytes back. *)
Lemma object_bytes_object_of_bytes (bs : list byte) :
  length bs = 96%nat -> object_bytes (object_of_bytes bs) = bs.
Proof.
  intros Hlen. unfold object_bytes, object_of_bytes.
  cbn [pr_version spot moving_average timestamp signature].
  assert (H8 : forall l : list byte, length l = 8%nat -> le_bytes 8 (le_value l) = l).
  { intros l Hl. rewrite <- Hl at 1. apply le_bytes_le_value. }
  rewrite !H8 by (rewrite length_take, ?length_drop; lia).
  rewrite (take_ge (take 64 (drop 32 bs))) by (rewrite length_take, length_drop; lia).
  assert (E4 : drop 24 bs = take 8 (drop 24 bs) ++ take 64 (drop 32 bs)).
  { rewrite <- (take_drop 8 (drop 24 bs)) at 1. rewrite drop_drop. f_equal.
    symmetry. apply take_ge. rewrite length_drop. lia. }
  assert (E3 : drop 16 bs = take 8 (drop 16 bs) ++ drop 24 bs).
  { rewrite <- (take_drop 8 (drop 16 bs)) at 1. now rewrite drop_drop. }
  assert (E2 : drop 8 bs = take 8 (drop 8 bs) ++ drop 16 bs).
  { rewrite <- (take_drop 8 (drop 8 bs)) at 1. now rewrite drop_drop. }
  rewrite <- E4, <- E3, <- E2. apply take_drop.
Qed.

(** The guard of [do_serialize], for every archive. *)
Lemma do_serialize_read_guard {A : Type} `{ReadArchive A} (ar : A) (pr : pricing_record) :
  remaining_bytes ar < sizeof_pricing_record ->
  do_serialize_read ar pr = (false, ar, pr).
Proof.
  intros Hlt. unfold do_serialize_read. apply N.ltb_lt in Hlt. now rewrite Hlt.
Qed.

Lemma object_of_bytes_prefix (blob rest : list byte) :
  length blob = 96%nat -> object_of_bytes (blob ++ rest) = object_of_bytes blob.
Proof.
  intros Hlen. unfold object_of_bytes.
  rewrite !drop_app_le by lia.
  rewrite !take_app_le by (rewrite ?length_drop; lia).
  reflexivity.
Qed.

(** C10. Reading a pricing record from a binary archive with fewer than 96
    bytes left returns [false] and changes neither the record nor the
    archive.  With 96 bytes or more it consumes exactly 96 bytes, the record
    becomes the object those 96 bytes represent, with nothing kept from its
    earlier contents and every byte of the blob accounted for, and the
    return value is the good flag of the archive. *)
Theorem do_serialize_read_truncated_or_whole (ar : binary_archive) (pr : pricing_record) :
  ((length (bytes_ ar) < 96)%nat ->
     do_serialize_read ar pr = (false, ar, pr)) /\
  ((96 <= length (bytes_ ar))%nat ->
     do_serialize_read ar pr =
       (good_ ar,
        mk_binary_archive (drop 96 (bytes_ ar)) (good_ ar),
        object_of_bytes (take 96 (bytes_ ar))) /\
     object_bytes (object_of_bytes (take 96 (bytes_ ar))) = take 96 (bytes_ ar)).
Proof.
  split.
  - intros Hlt. apply do_serialize_read_guard.
    cbn [remaining_bytes binary_archive_read]. unfold sizeof_pricing_record. lia.
  - intros Hge. split.
    + unfold do_serialize_read.
      cbn [remaining_bytes serialize_blob good binary_archive_read].
      replace (N.of_nat (length (bytes_ ar)) <? sizeof_pricing_record) with false
        by (symmetry; apply N.ltb_ge; unfold sizeof_pricing_record; lia).
      replace (N.min sizeof_pricing_record (N.of_nat (length (bytes_ ar))))
        with sizeof_pricing_record
        by (symmetry; apply N.min_l; unfold sizeof_pricing_record; lia).
      rewrite N.eqb_refl, andb_true_r.
      change (N.to_nat sizeof_pricing_record) with 96%nat.
      cbn [good_ bytes_].
      rewrite object_of_bytes_prefix by (rewrite length_take; lia).
      now destruct (good_ ar).
    + apply object_bytes_object_of_bytes. rewrite length_take. lia.
Qed.

(** * Examples *)

(** The policy theorems at the stand-in library and configuration, where
    the activation version is 2 and the tolerance 120. *)

Lemma valid_below_activation_iff_empty_witness :
  @valid Demo.openssl Demo.config Demo.MAINNET 1 1010 999 default_record
    = Ret (true, []) /\
  @valid Demo.openssl Demo.config Demo.MAINNET 1 1010 999 Demo.signed_record
    = Ret (false, []) /\
  @valid Demo.openssl Demo.config Demo.UNDEFINED 7 0 5000 default_record
    = Ret (true, []).
Proof.
  split; [| split].
  - apply (proj1 (@valid_below_activation_iff_empty Demo.openssl Demo.config
                    Demo.MAINNET 1 1010 999 default_record)).
    + simpl. lia.
    + reflexivity.
  - apply (proj1 (@valid_below_activation_iff_empty Demo.openssl Demo.config
                    Demo.MAINNET 1 1010 999 Demo.signed_record)).
    + simpl. lia.
    + reflexivity.
  - apply (proj2 (@valid_below_activation_iff_empty Demo.openssl Demo.config
                    Demo.UNDEFINED 7 0 5000 default_record)).
    reflexivity.
Defined.

Lemma valid_rejects_future_timestamp_witness :
  1010 + 120 < timestamp Demo.far_future_record /\
  @valid Demo.openssl Demo.config Demo.MAINNET 2 1010 999 Demo.far_future_record
    = Ret (false, ["Pricing record timestamp is too far in the future."%string]).
Proof.
  split; [simpl; lia |].
  apply (proj2 (@valid_rejects_future_timestamp Demo.openssl Demo.config
                  Demo.MAINNET 2 1010 999 Demo.far_future_record Demo.key
                  ltac:(reflexivity) ltac:(simpl; lia) ltac:(simpl; lia)
                  ltac:(reflexivity) ltac:(reflexivity) ltac:(simpl; lia))).
  simpl. lia.
Defined.

(** C6 as stated fails below the activation version: the far-future record
    of the spec's example, with both rates, a verifying signature and a
    timestamp above block timestamp plus tolerance, is rejected under
    protocol version 1 by the version gate, with no log line, so not with
    the future-timestamp reason. *)
Lemma valid_rejects_future_timestamp_without_reason :
  empty Demo.far_future_record = false /\
  spot Demo.far_future_record <> 0 /\
  moving_average Demo.far_future_record <> 0 /\
  @oracle_public_key Demo.config Demo.MAINNET = Ret Demo.key /\
  @verifySignature Demo.openssl Demo.key Demo.far_future_record = Ret true /\
  1010 + 120 < timestamp Demo.far_future_record /\
  1 < @HF_VERSION_SLIPPAGE_YIELD Demo.config /\
  @valid Demo.openssl Demo.config Demo.MAINNET 1 1010 999 Demo.far_future_record
    = Ret (false, []) /\
  @valid Demo.openssl Demo.config Demo.MAINNET 1 1010 999 Demo.far_future_record
    <> Ret (false, ["Pricing record timestamp is too far in the future."%string]).
Proof.
  repeat split; try reflexivity; try (vm_compute; discriminate).
Defined.

Lemma valid_timestamp_not_advancing_witness :
  @valid Demo.openssl Demo.config Demo.MAINNET 2 1010 1000 Demo.signed_record
    = Ret (false,
           ["Pricing record timestamp: 1000, block timestamp: 1010"%string;
            "Pricing record timestamp is too old."%string]) /\
  @valid Demo.openssl Demo.config Demo.MAINNET 2 1010 999 Demo.signed_record
    = Ret (true, []).
Proof.
  split.
  - apply (proj1 (@valid_timestamp_not_advancing Demo.openssl Demo.config
                    Demo.MAINNET 2 1010 1000 Demo.signed_record Demo.key
                    ltac:(simpl; lia) ltac:(reflexivity) ltac:(reflexivity)
                    ltac:(reflexivity) ltac:(reflexivity) ltac:(vm_compute; discriminate))).
    simpl. lia.
  - apply (proj1 (proj2 (@valid_timestamp_not_advancing Demo.openssl Demo.config
                    Demo.MAINNET 2 1010 999 Demo.signed_record Demo.key
                    ltac:(simpl; lia) ltac:(reflexivity) ltac:(reflexivity)
                    ltac:(reflexivity) ltac:(reflexivity) ltac:(vm_compute; discriminate)))).
    simpl. lia.
Defined.

(** C7 as stated fails at two inputs, both with the record of the spec's
    example: both rates, a verifying signature, timestamp 1000 above the
    previous block timestamp 999.  Under protocol version 1, below the
    activation version, the record is rejected by the version gate.  Under
    protocol version 2 with block timestamp [2^64 - 1], the timestamp is
    within the tolerance over the integers, the 64-bit sum wraps to 119, and
    the record is rejected by the future-skew test. *)
Lemma valid_rejects_advancing_timestamp :
  (empty Demo.signed_record = false /\
   has_missing_rates Demo.signed_record = false /\
   @oracle_public_key Demo.config Demo.MAINNET = Ret Demo.key /\
   @verifySignature Demo.openssl Demo.key Demo.signed_record = Ret true /\
   ~ (timestamp Demo.signed_record <= 999)) /\
  (timestamp Demo.signed_record <= 1010 + 120 /\
   timestamp Demo.signed_record <= add_u64 1010 120 /\
   1 < @HF_VERSION_SLIPPAGE_YIELD Demo.config /\
   @valid Demo.openssl Demo.config Demo.MAINNET 1 1010 999 Demo.signed_record
     = Ret (false, [])) /\
  (timestamp Demo.signed_record <= 18446744073709551615 + 120 /\
   add_u64 18446744073709551615 120 = 119 /\
   @HF_VERSION_SLIPPAGE_YIELD Demo.config <= 2 /\
   @valid Demo.openssl Demo.config Demo.MAINNET 2 18446744073709551615 999
      Demo.signed_record
     = Ret (false, ["Pricing record timestamp is too far in the future."%string])).
Proof.
  repeat split; try reflexivity; try (vm_compute; discriminate).
  vm_compute. intros E. now apply E.
Defined.

Lemma valid_missing_rates_witness :
  spot Demo.no_spot_record = 0 /\
  @valid Demo.openssl Demo.config Demo.UNDEFINED 2 1010 999 Demo.no_spot_record
    = Ret (false, ["Pricing record has missing rates."%string]).
Proof.
  split; [reflexivity |].
  apply (@valid_missing_rates Demo.openssl Demo.config Demo.UNDEFINED 2 1010 999
           Demo.no_spot_record).
  - simpl. lia.
  - reflexivity.
  - left. reflexivity.
Defined.

(** The verifier at the stand-in library. *)

Lemma verifySignature_message_format_witness :
  @verifySignature Demo.openssl Demo.key Demo.signed_record =
  Ret (@digest_verify Demo.openssl Demo.key
         (signed_message_format 1 100 95 1000)
         (signature Demo.signed_record) =? 1)%Z.
Proof.
  apply (proj2 (proj2 (proj2 (proj2
           (@verifySignature_message_format Demo.openssl Demo.signed_record))))).
  - discriminate.
  - reflexivity.
  - reflexivity.
Defined.

Lemma verifySignature_failure_modes_witness :
  @verifySignature Demo.openssl Demo.key Demo.unsigned_record = Ret false /\
  @verifySignature Demo.openssl_no_context Demo.key Demo.signed_record = Ret false.
Proof.
  split.
  - apply (proj2 (proj2 (proj2 (proj2
             (proj2 (proj2 (@verifySignature_failure_modes Demo.openssl Demo.key
                       Demo.unsigned_record))
                Demo.key ltac:(discriminate) ltac:(reflexivity)))))
           (EmptyString, EmptyString) (Demo.key, EmptyString)
           (Demo.key, message Demo.unsigned_record)).
    + reflexivity.
    + reflexivity.
    + reflexivity.
    + vm_compute. discriminate.
  - apply (proj1 (proj2
             (proj2 (proj2 (@verifySignature_failure_modes Demo.openssl_no_context
                       Demo.key Demo.signed_record))
                Demo.key ltac:(discriminate) ltac:(reflexivity)))).
    reflexivity.
Defined.

(** Wire decoding of texts that are not 128 hex digits. *)

(** C1 as stated fails: a text of two characters that are not hex digits,
    a text of odd length and a text of two hex digits are none of them
    decodable into 64 bytes, and [_load] returns [true] on each, the last
    one leaving 63 bytes of the receiving record's old signature in place. *)
Lemma _load_accepts_undecodable_signature :
  decodes_to_64_bytes "zz" = false /\
  _load (Some (Demo.wire "zz")) default_record
    = LoadTrue (mk_pricing_record 7 8 9 10 zero_signature) /\
  decodes_to_64_bytes "abc" = false /\
  _load (Some (Demo.wire "abc")) default_record
    = LoadTrue (mk_pricing_record 7 8 9 10 (xab :: x0c :: repeat x00 62)) /\
  decodes_to_64_bytes "ab" = false /\
  _load (Some (Demo.wire "ab")) Demo.signed_record
    = LoadTrue (mk_pricing_record 7 8 9 10
                  (xab :: drop 1 (signature Demo.signed_record))).
Proof. repeat split. Defined.

Lemma _load_accepts_any_short_signature_witness :
  exists sig',
    _load (Some (Demo.wire "abc")) default_record =
      LoadTrue (mk_pricing_record 7 8 9 10 sig') /\
    length sig' = 64%nat /\
    forall j : nat,
      sig' !! j =
      if (2 * j <? 3)%nat
      then Some (hex_chunk "abc" (N.of_nat (2 * j)))
      else signature default_record !! j.
Proof.
  apply (proj2 (_load_accepts_any_short_signature (Demo.wire "abc") default_record
                  ltac:(reflexivity))).
  simpl. lia.
Defined.

Lemma _load_writes_in_bounds_iff_witness :
  (128 < String.length (fill 130 "a"))%nat /\
  _load (Some (Demo.wire (fill 130 "a"))) default_record = LoadOutOfBounds 64.
Proof.
  split; [simpl; lia |].
  apply (proj1 (proj2 (proj2
           (_load_writes_in_bounds_iff (Demo.wire (fill 130 "a")) default_record
              ltac:(reflexivity))) ltac:(simpl; lia))).
Defined.

Lemma store_load_roundtrip_witness :
  wf_record Demo.signed_record /\
  wf_record default_record /\
  exists r', _load (Some (store Demo.signed_record)) default_record = LoadTrue r' /\
             equal r' Demo.signed_record = true /\ r' = Demo.signed_record.
Proof.
  split; [reflexivity |]. split; [reflexivity |].
  apply (proj1 (store_load_roundtrip Demo.signed_record default_record
                  ltac:(reflexivity) ltac:(reflexivity))).
Defined.

(** Blob reading: 95 bytes are too few; from 98 bytes the first 96 are
    decoded and two are left. *)
Lemma do_serialize_read_truncated_or_whole_witness :
  do_serialize_read (mk_binary_archive (take 95 Demo.blob) true) Demo.signed_record
    = (false, mk_binary_archive (take 95 Demo.blob) true, Demo.signed_record) /\
  do_serialize_read (mk_binary_archive Demo.blob true) Demo.signed_record
    = (true, mk_binary_archive [xff; xfe] true,
       mk_pricing_record 1 100 95 1000 (repeat x07 64)).
Proof.
  split.
  - apply (proj1 (do_serialize_read_truncated_or_whole
                    (mk_binary_archive (take 95 Demo.blob) true) Demo.signed_record)).
    simpl. lia.
  - apply (proj1 (proj2 (do_serialize_read_truncated_or_whole
                    (mk_binary_archive Demo.blob true) Demo.signed_record)
                    ltac:(simpl; lia))).
Defined.

(** * Further properties *)

(** ** Equality, emptiness and copies *)

(** X1. On records whose buffer has its 64 bytes, [equal] decides equality
    of the records: all four integers and every signature byte take part. *)
Theorem equal_iff_eq (a b : pricing_record) :
  wf_record a -> wf_record b -> (equal a b = true <-> a = b).
Proof.
  intros Ha Hb. split.
  - now apply equal_eq.
  - intros ->. apply equal_refl.
Qed.

Lemma lookup_repeat (x b : byte) (n i : nat) :
  repeat x n !! i = Some b -> b = x.
Proof.
  revert i. induction n as [| n IH]; intros [| i] Hi;
    try discriminate Hi; simpl in Hi.
  - now injection Hi as <-.
  - now apply (IH i).
Qed.

Lemma empty_iff_default (r : pricing_record) :
  wf_record r -> (empty r = true <-> r = default_record).
Proof.
  intros Hr. unfold empty. split.
  - apply equal_eq; [exact Hr | reflexivity].
  - intros ->. apply equal_refl.
Qed.

(** X2. A record with its 64 bytes is empty exactly when it is the
    default-constructed one, so a record with a nonzero integer member or a
    nonzero signature byte is not empty; and an empty record has missing
    rates. *)
Theorem empty_characterisation (r : pricing_record) :
  wf_record r ->
  (empty r = true <-> r = default_record) /\
  (pr_version r <> 0 \/ spot r <> 0 \/ moving_average r <> 0 \/ timestamp r <> 0 \/
   (exists (i : nat) (b : byte), signature r !! i = Some b /\ b <> x00) ->
   empty r = false) /\
  (empty r = true -> has_missing_rates r = true).
Proof.
  intros Hr. pose proof (empty_iff_default r Hr) as Hiff.
  split; [exact Hiff |]. split.
  - intros Hnz. apply not_true_iff_false. intros E.
    apply Hiff in E. subst r. simpl in Hnz.
    destruct Hnz as [Hn | [Hn | [Hn | [Hn | (i & b & Hi & Hb)]]]];
      try (now apply Hn).
    unfold zero_signature in Hi. apply lookup_repeat in Hi. now apply Hb.
  - intros E. apply Hiff in E. now subst r.
Qed.

Lemma memcpy_whole (dst src : list byte) :
  length dst = sizeof_signature -> length src = sizeof_signature ->
  memcpy dst src sizeof_signature = src.
Proof.
  intros Hd Hs. unfold memcpy.
  rewrite take_ge, drop_ge by lia. apply app_nil_r.
Qed.

(** X3. The copy constructor and the assignment give the original back,
    whatever the destination buffer held before: no byte of the old or the
    uninitialised buffer survives, and the copy is [equal] to the original. *)
Theorem copy_and_assign_give_original (uninit : list byte) (this orig : pricing_record) :
  length uninit = sizeof_signature ->
  wf_record this ->
  wf_record orig ->
  copy_construct uninit orig = orig /\
  assign this orig = orig /\
  equal (copy_construct uninit orig) orig = true /\
  equal (assign this orig) orig = true.
Proof.
  intros Hu Ht Ho.
  assert (Hc : copy_construct uninit orig = orig).
  { unfold copy_construct. rewrite (memcpy_whole _ _ Hu Ho). now destruct orig. }
  assert (Ha : assign this orig = orig).
  { unfold assign. rewrite (memcpy_whole _ _ Ht Ho). now destruct orig. }
  rewrite Hc, Ha. repeat split; apply equal_refl.
Qed.

(** ** The policy as a whole *)

Section ValidMore.
Context `{OpenSSL} `{Config}.

Variables (nettype : network_type) (hf_version bl_timestamp last_bl_timestamp : N).
Variable this : pricing_record.

(** Case analysis on every test of [valid], in the order of the code. *)
Ltac valid_cases Hv :=
  unfold valid in Hv;
  destruct (hf_version <? HF_VERSION_SLIPPAGE_YIELD) eqn:Ehf;
  destruct (empty this) eqn:Eempty;
  cbn [andb negb] in Hv; try discriminate Hv;
  repeat match type of Hv with
    | context [has_missing_rates this] =>
        destruct (has_missing_rates this) eqn:Erates; try discriminate Hv
    | context [oracle_public_key nettype] =>
        destruct (oracle_public_key nettype) as [public_key | w] eqn:Ekey;
        cbn [bind] in Hv; try discriminate Hv
    | context [verifySignature ?k this] =>
        destruct (verifySignature k this) as [[|] | w'] eqn:Esig;
        cbn [bind negb] in Hv; try discriminate Hv
    | context [add_u64 ?a ?b <? ?c] =>
        destruct (add_u64 a b <? c) eqn:Eskew; try discriminate Hv
    | context [timestamp this <=? ?l] =>
        destruct (timestamp this <=? l) eqn:Eold; try discriminate Hv
    end.

(** X4. [valid] returns [true] exactly for the empty record and for a
    present record at or above the activation version with both rates, a
    key that is found, a signature that verifies, and a timestamp above the
    previous block timestamp and not above the 64-bit sum of block
    timestamp and tolerance.  An accepting call logs nothing, and the
    accepted timestamp is not above the unbounded sum either. *)
Theorem valid_accepts_iff :
  ((exists log,
      valid nettype hf_version bl_timestamp last_bl_timestamp this = Ret (true, log))
   <->
   empty this = true \/
   (HF_VERSION_SLIPPAGE_YIELD <= hf_version /\
    has_missing_rates this = false /\
    (exists public_key,
       oracle_public_key nettype = Ret public_key /\
       verifySignature public_key this = Ret true) /\
    timestamp this <= add_u64 bl_timestamp PRICING_RECORD_VALID_TIME_DIFF_FROM_BLOCK /\
    last_bl_timestamp < timestamp this)) /\
  (forall log,
     valid nettype hf_version bl_timestamp last_bl_timestamp this = Ret (true, log) ->
     log = [] /\
     (empty this = false ->
      spot this <> 0 /\ moving_average this <> 0 /\
      last_bl_timestamp < timestamp this /\
      timestamp this <= bl_timestamp + PRICING_RECORD_VALID_TIME_DIFF_FROM_BLOCK)).
Proof.
  split; [split |].
  - intros [log Hv]. valid_cases Hv; try (now left).
    right. apply N.ltb_ge in Ehf, Eskew. apply N.leb_gt in Eold.
    repeat split; try assumption. now exists public_key.
  - intros [He | (Hge & Hr & (public_key & Hk & Hs) & Hskew & Hlt)].
    + exists []. now apply valid_empty.
    + destruct (empty this) eqn:Eempty.
      * exists []. now apply valid_empty.
      * exists []. rewrite (valid_present _ _ _ _ _ Hge Eempty), Hr, Hk.
        cbn [bind]. rewrite Hs. cbn [bind negb].
        apply N.ltb_ge in Hskew. apply N.leb_gt in Hlt. now rewrite Hskew, Hlt.
  - intros log Hv. valid_cases Hv; injection Hv as <-;
      (split; [reflexivity |]); intros E; try discriminate E.
    apply N.ltb_ge in Eskew. apply N.leb_gt in Eold.
    unfold has_missing_rates in Erates. apply orb_false_iff in Erates.
    destruct Erates as [Es Em]. apply N.eqb_neq in Es, Em.
    repeat split; try assumption.
    eapply N.le_trans; [exact Eskew | apply add_u64_le].
Qed.

(** X5. At or above the activation version, a present record with both
    rates whose signature does not verify is rejected with the
    invalid-signature line and no other, whatever the three timestamps
    are. *)
Theorem valid_invalid_signature (public_key : string) :
  HF_VERSION_SLIPPAGE_YIELD <= hf_version ->
  empty this = false ->
  has_missing_rates this = false ->
  oracle_public_key nettype = Ret public_key ->
  verifySignature public_key this = Ret false ->
  valid nettype hf_version bl_timestamp last_bl_timestamp this =
  Ret (false, ["Invalid pricing record signature."%string]).
Proof.
  intros Hge He Hr Hk Hs.
  rewrite (valid_present _ _ _ _ _ Hge He), Hr, Hk. cbn [bind].
  now rewrite Hs.
Qed.

(** X6. [valid] throws exactly when the record is present, the protocol
    version is at or above activation, both rates are there, and either
    the key lookup throws or [verifySignature] does; what is thrown is what
    they threw.  It never throws on an empty record, below activation or on
    missing rates. *)
Theorem valid_throws_iff (what : string) :
  valid nettype hf_version bl_timestamp last_bl_timestamp this = Throw what
  <->
  empty this = false /\
  HF_VERSION_SLIPPAGE_YIELD <= hf_version /\
  has_missing_rates this = false /\
  (oracle_public_key nettype = Throw what \/
   exists public_key,
     oracle_public_key nettype = Ret public_key /\
     verifySignature public_key this = Throw what).
Proof.
  split.
  - intros Hv. valid_cases Hv; injection Hv as <-; apply N.ltb_ge in Ehf;
      repeat split; try assumption.
    + right. exists public_key. now split.
    + now left.
  - intros (He & Hge & Hr & Hthrow).
    rewrite (valid_present _ _ _ _ _ Hge He), Hr.
    destruct Hthrow as [Hk | (public_key & Hk & Hs)]; rewrite Hk; cbn [bind].
    + reflexivity.
    + now rewrite Hs.
Qed.

(** X7. The only rejection that logs nothing is the one by the version
    gate: [valid] returns [false] with an empty log exactly when the
    protocol version is below activation and the record is present. *)
Theorem valid_silent_rejection_iff :
  valid nettype hf_version bl_timestamp last_bl_timestamp this = Ret (false, [])
  <->
  hf_version < HF_VERSION_SLIPPAGE_YIELD /\ empty this = false.
Proof.
  split.
  - intros Hv. valid_cases Hv. apply N.ltb_lt in Ehf. now split.
  - intros [Hlt He]. now rewrite (valid_before_activation _ _ _ _ _ Hlt), He.
Qed.

End ValidMore.

(** ** The verifier as a whole *)

Section VerifyMore.
Context `{OpenSSL}.
Variables (public_key : string) (this : pricing_record).

Lemma digest_verify_one_iff (pubkey : EVP_PKEY) (msg : string) (sig : list byte) :
  digest_verify pubkey msg sig = 1%Z <->
  exists ctx ctx1 ctx2,
    EVP_MD_CTX_create = Some ctx /\
    EVP_DigestVerifyInit ctx pubkey = (1%Z, ctx1) /\
    EVP_DigestVerifyUpdate ctx1 msg = (1%Z, ctx2) /\
    EVP_DigestVerifyFinal ctx2 (take 64 sig) = 1%Z.
Proof.
  unfold digest_verify. split.
  - destruct EVP_MD_CTX_create as [ctx |]; [| discriminate].
    destruct (EVP_DigestVerifyInit ctx pubkey) as [ret ctx1] eqn:Ei.
    destruct (Z.eqb_spec ret 1) as [-> | Hne]; [| intros E; now subst ret].
    destruct (EVP_DigestVerifyUpdate ctx1 msg) as [ret ctx2] eqn:Eu.
    destruct (Z.eqb_spec ret 1) as [-> | Hne]; [| intros E; now subst ret].
    intros Ef. now exists ctx, ctx1, ctx2.
  - intros (ctx & ctx1 & ctx2 & -> & -> & Hu & Hf). cbn [Z.eqb Pos.eqb].
    now rewrite Hu.
Qed.

(** X8. [verifySignature] returns [true] only when every step went
    through: the key text is not empty, the memory buffer for it was
    allocated, the text parsed to a key, a digest context was created, and
    initialisation, update with the message and the final check of the
    first 64 signature bytes each reported [1]; and then it does return
    [true].  When the memory buffer cannot be allocated it returns [false]
    without looking at the key text any further. *)
Theorem verifySignature_true_iff :
  (verifySignature public_key this = Ret true <->
   public_key <> EmptyString /\
   BIO_new_mem_buf public_key = true /\
   exists pubkey ctx ctx1 ctx2,
     PEM_read_bio_PUBKEY public_key = Some pubkey /\
     EVP_MD_CTX_create = Some ctx /\
     EVP_DigestVerifyInit ctx pubkey = (1%Z, ctx1) /\
     EVP_DigestVerifyUpdate ctx1 (message this) = (1%Z, ctx2) /\
     EVP_DigestVerifyFinal ctx2 (take 64 (signature this)) = 1%Z) /\
  (public_key <> EmptyString ->
   BIO_new_mem_buf public_key = false ->
   verifySignature public_key this = Ret false).
Proof.
  split; [split |].
  - unfold verifySignature.
    destruct (String.length public_key =? 0)%nat eqn:El; [discriminate |].
    assert (Hne : public_key <> EmptyString).
    { intros E. apply length_zero_empty in E. congruence. }
    destruct (BIO_new_mem_buf public_key); cbn [negb]; [| discriminate].
    destruct (PEM_read_bio_PUBKEY public_key) as [pubkey |]; [| discriminate].
    destruct (Z.eqb_spec (digest_verify pubkey (message this) (signature this)) 1)
      as [Hd | Hd]; [| discriminate].
    intros _. apply digest_verify_one_iff in Hd.
    destruct Hd as (ctx & ctx1 & ctx2 & Hd).
    split; [exact Hne |]. split; [reflexivity |].
    now exists pubkey, ctx, ctx1, ctx2.
  - intros (Hne & Hbio & pubkey & ctx & ctx1 & ctx2 & Hpem & Hd).
    rewrite (verifySignature_usable_key public_key this pubkey Hne Hpem), Hbio.
    assert (E : digest_verify pubkey (message this) (signature this) = 1%Z).
    { apply digest_verify_one_iff. now exists ctx, ctx1, ctx2. }
    now rewrite E.
  - intros Hne Hbio. unfold verifySignature.
    destruct (String.length public_key =? 0)%nat eqn:El.
    + apply length_zero_empty in El. contradiction.
    + now rewrite Hbio.
Qed.

End VerifyMore.

(** ** The signed message determines the members *)

Lemma show_dec_digits (n : N) : string_forallb is_digit (show_dec n) = true.
Proof.
  unfold show_dec, DecimalString.NilZero.string_of_uint.
  assert (Hd : forall d, string_forallb is_digit
                           (DecimalString.NilEmpty.string_of_uint d) = true).
  { induction d; simpl; auto. }
  destruct (N.to_uint n); try apply Hd. reflexivity.
Qed.

Lemma show_dec_inj (n m : N) : show_dec n = show_dec m -> n = m.
Proof.
  intros E. pose proof (decimal_value_show_dec n) as Hn.
  rewrite E, decimal_value_show_dec in Hn. congruence.
Qed.

(** A run of digits followed by a text that starts with another character
    can be cut in one way only. *)
Lemma digits_then_other (a a' : string) (c c' : ascii) (t t' : string) :
  string_forallb is_digit a = true ->
  string_forallb is_digit a' = true ->
  is_digit c = false -> is_digit c' = false ->
  (a ++ String c t = a' ++ String c' t')%string ->
  a = a' /\ String c t = String c' t'.
Proof.
  revert a'. induction a as [| x a IH]; intros [| x' a'] Ha Ha' Hc Hc' E;
    cbn [append string_forallb] in *.
  - now split.
  - injection E as -> _. apply andb_true_iff in Ha'. destruct Ha' as [Hx _]. congruence.
  - injection E as <- _. apply andb_true_iff in Ha. destruct Ha as [Hx _]. congruence.
  - injection E as -> E. apply andb_true_iff in Ha, Ha'.
    destruct Ha as [_ Ha], Ha' as [_ Ha'].
    destruct (IH a' Ha Ha' Hc Hc' E) as [-> Ht]. now split.
Qed.

(** X9. Two records with the same signed message have the same version,
    spot, moving average and timestamp: no two different tuples of members
    share a message. *)
Theorem message_determines_members (a b : pricing_record) :
  message a = message b ->
  pr_version a = pr_version b /\ spot a = spot b /\
  moving_average a = moving_average b /\ timestamp a = timestamp b.
Proof.
  rewrite !message_signed_message_format.
  unfold signed_message_format, join_commas, json_member.
  repeat first [rewrite string_app_assoc | progress cbn [append dquote]].
  intros E. injection E as E.
  pose proof (show_dec_digits (pr_version a)). pose proof (show_dec_digits (pr_version b)).
  pose proof (show_dec_digits (spot a)). pose proof (show_dec_digits (spot b)).
  pose proof (show_dec_digits (moving_average a)).
  pose proof (show_dec_digits (moving_average b)).
  pose proof (show_dec_digits (timestamp a)). pose proof (show_dec_digits (timestamp b)).
  apply digits_then_other in E; try assumption; try reflexivity.
  destruct E as [E1 E]. injection E as E.
  apply digits_then_other in E; try assumption; try reflexivity.
  destruct E as [E2 E]. injection E as E.
  apply digits_then_other in E; try assumption; try reflexivity.
  destruct E as [E3 E]. injection E as E.
  apply digits_then_other in E; try assumption; try reflexivity.
  destruct E as [E4 _].
  repeat split; now apply show_dec_inj.
Qed.

(** ** Decoding a text of 128 hex digits *)

Lemma hex_value_facts (c : ascii) (d : Z) :
  hex_value c = Some d ->
  isspace c = false /\
  (N_of_ascii c =? 45) = false /\
  (N_of_ascii c =? 43) = false /\
  (N_of_ascii c =? 0) = false /\
  (0 <= d <= 15)%Z.
Proof.
  destruct c as [b0 b1 b2 b3 b4 b5 b6 b7].
  destruct b0, b1, b2, b3, b4, b5, b6, b7; vm_compute; intros E;
    try discriminate E; injection E as <-;
    repeat split; discriminate.
Qed.

Lemma strtol16_two_digits (c1 c2 : ascii) (d1 d2 : Z) :
  hex_value c1 = Some d1 -> hex_value c2 = Some d2 ->
  strtol16 (c_str (String c1 (String c2 EmptyString))) = (16 * d1 + d2)%Z.
Proof.
  intros H1 H2.
  destruct (hex_value_facts c1 d1 H1) as (Hs1 & Hm1 & Hp1 & Hz1 & Hd1).
  destruct (hex_value_facts c2 d2 H2) as (_ & _ & _ & Hz2 & Hd2).
  unfold strtol16. cbn [c_str]. rewrite Hz1, Hz2.
  cbn [skip_spaces]. rewrite Hs1, Hm1, Hp1.
  cbn [skip_0x hex_run]. rewrite H1, H2.
  change LONG_MAX with 9223372036854775807%Z.
  change LONG_MIN with (-9223372036854775808)%Z.
  rewrite Z.min_r by lia. rewrite Z.max_r by lia. ring.
Qed.

Lemma substring_two (s : string) :
  forall (n : nat) (c1 c2 : ascii),
    get n s = Some c1 -> get (S n) s = Some c2 ->
    substring n 2 s = String c1 (String c2 EmptyString).
Proof.
  induction s as [| x s IH]; intros n c1 c2 H1 H2; [destruct n; discriminate H1 |].
  destruct n as [| n].
  - cbn [get] in H1, H2. injection H1 as ->.
    destruct s as [| y s]; [discriminate H2 |].
    cbn [get] in H2. injection H2 as ->. cbn [substring]. now destruct s.
  - cbn [get] in H1. cbn [substring]. apply IH; [exact H1 | exact H2].
Qed.

Lemma get_in_range (s : string) :
  forall n : nat, (n < String.length s)%nat -> exists c, get n s = Some c.
Proof.
  induction s as [| x s IH]; intros n Hn; [simpl in Hn; lia |].
  destruct n as [| n]; [now exists x |].
  cbn [get]. apply IH. simpl in Hn. lia.
Qed.

Lemma string_forallb_get (p : ascii -> bool) (s : string) :
  string_forallb p s = true ->
  forall (n : nat) (c : ascii), get n s = Some c -> p c = true.
Proof.
  induction s as [| x s IH]; intros Hp n c Hn; [destruct n; discriminate Hn |].
  cbn [string_forallb] in Hp. apply andb_true_iff in Hp. destruct Hp as [Hx Hs].
  destruct n as [| n]; cbn [get] in Hn.
  - now injection Hn as <-.
  - now apply (IH Hs n).
Qed.

Lemma byte_of_hex_digits_cast (c1 c2 : ascii) (d1 d2 : Z) :
  hex_value c1 = Some d1 -> hex_value c2 = Some d2 ->
  byte_of_hex_digits c1 c2 = Some (char_of_long (16 * d1 + d2)).
Proof.
  intros H1 H2.
  destruct (hex_value_facts c1 d1 H1) as (_ & _ & _ & _ & Hd1).
  destruct (hex_value_facts c2 d2 H2) as (_ & _ & _ & _ & Hd2).
  unfold byte_of_hex_digits, char_of_long. rewrite H1, H2.
  rewrite Z.mod_small by lia.
  destruct (Byte.of_N (Z.to_N (16 * d1 + d2))) as [b |] eqn:E; [reflexivity |].
  apply Byte.of_N_None_iff in E. lia.
Qed.

(** X10. On a signature text of 128 hex digits, in either case, [_load]
    returns [true] and fills the whole buffer: byte [j] is the value of
    the digits at offsets [2 * j] and [2 * j + 1], high nibble first, and
    nothing of what the receiving record held in its buffer is left. *)
Theorem _load_decodes_hex_text (inp : pr_serialized) :
  decodes_to_64_bytes (w_signature inp) = true ->
  exists sig',
    length sig' = 64%nat /\
    (forall this, wf_record this ->
       _load (Some inp) this =
       LoadTrue (mk_pricing_record (w_pr_version inp) (w_spot inp)
                   (w_moving_average inp) (w_timestamp inp) sig')) /\
    (forall j : nat, (j < 64)%nat ->
       exists c1 c2 b,
         get (2 * j) (w_signature inp) = Some c1 /\
         get (2 * j + 1) (w_signature inp) = Some c2 /\
         byte_of_hex_digits c1 c2 = Some b /\
         sig' !! j = Some b).
Proof.
  unfold decodes_to_64_bytes. intros Hdec.
  apply andb_true_iff in Hdec. destruct Hdec as [HL Hhex].
  apply Nat.eqb_eq in HL.
  set (s := w_signature inp) in *.
  destruct (fromHex_in_bounds s zero_signature) as (sig' & Hrun & Hlen & Hget);
    [lia | reflexivity |].
  exists sig'. split; [exact Hlen |]. split.
  - intros this Hthis.
    destruct (fromHex_in_bounds s (signature this)) as (sig'' & Hrun' & Hlen' & Hget');
      [lia | exact Hthis |].
    unfold _load. fold s. rewrite Hrun'. do 2 f_equal.
    apply list_eq. intros j. rewrite Hget, Hget', HL.
    destruct (Nat.ltb_spec (2 * j) 128) as [Hj | Hj]; [reflexivity |].
    rewrite !lookup_ge_None_2; [reflexivity | | ];
      unfold wf_record, zero_signature, sizeof_signature in *;
      rewrite ?repeat_length; lia.
  - intros j Hj.
    destruct (get_in_range s (2 * j)) as [c1 H1]; [lia |].
    destruct (get_in_range s (S (2 * j))) as [c2 H2]; [lia |].
    pose proof (string_forallb_get _ _ Hhex _ _ H1) as Hc1.
    pose proof (string_forallb_get _ _ Hhex _ _ H2) as Hc2.
    unfold is_hex_digit in Hc1, Hc2.
    destruct (hex_value c1) as [d1 |] eqn:E1; [| discriminate Hc1].
    destruct (hex_value c2) as [d2 |] eqn:E2; [| discriminate Hc2].
    exists c1, c2, (char_of_long (16 * d1 + d2)).
    split; [exact H1 |]. split; [now rewrite Nat.add_1_r |].
    split; [now apply byte_of_hex_digits_cast |].
    rewrite Hget, HL.
    replace (2 * j <? 128)%nat with true by (symmetry; apply Nat.ltb_lt; lia).
    f_equal. unfold hex_chunk. rewrite Nat2N.id.
    rewrite (substring_two s (2 * j) c1 c2 H1 H2).
    f_equal. now apply strtol16_two_digits.
Qed.

(** ** More on the wire form *)

(** X11. Two records, each with its 64 bytes, that [store] maps to the same
    wire value are the same record. *)
Theorem store_injective (a b : pricing_record) :
  wf_record a -> wf_record b -> store a = store b -> a = b.
Proof.
  intros Ha Hb E. unfold store in E. injection E as Ev Es Em Et Eh.
  pose proof (fromHex_toHex (signature a) zero_signature Ha eq_refl) as Hra.
  pose proof (fromHex_toHex (signature b) zero_signature Hb eq_refl) as Hrb.
  rewrite Eh, Hrb in Hra. injection Hra as Esig.
  destruct a, b; simpl in *. congruence.
Qed.

(** X12. Loading the same wire value a second time changes nothing: what
    [_load] returned [true] on is a fixed point of loading it again. *)
Theorem _load_idempotent (inp : pr_serialized) (this r1 : pricing_record) :
  wf_record this ->
  _load (Some inp) this = LoadTrue r1 ->
  wf_record r1 /\ _load (Some inp) r1 = LoadTrue r1.
Proof.
  intros Hthis Hload.
  destruct (Nat.le_gt_cases (String.length (w_signature inp)) 128) as [HL | HL].
  - destruct (fromHex_in_bounds (w_signature inp) (signature this) HL Hthis)
      as (sig1 & Hrun1 & Hlen1 & Hget1).
    unfold _load in Hload. rewrite Hrun1 in Hload. injection Hload as <-.
    split; [exact Hlen1 |].
    destruct (fromHex_in_bounds (w_signature inp) sig1 HL Hlen1)
      as (sig2 & Hrun2 & Hlen2 & Hget2).
    unfold _load. cbn [signature]. rewrite Hrun2. do 2 f_equal.
    apply list_eq. intros j. rewrite Hget2, Hget1.
    now destruct (2 * j <? String.length (w_signature inp))%nat.
  - unfold _load in Hload.
    rewrite (fromHex_out_of_bounds (w_signature inp) (signature this) HL Hthis) in Hload.
    discriminate Hload.
Qed.

(** ** Writing and reading the blob *)

Lemma le_bytes_length (n : nat) : forall v : N, length (le_bytes n v) = n.
Proof. induction n as [| n IH]; intros v; cbn [le_bytes length]; [| rewrite IH]; reflexivity. Qed.

Lemma char_of_long_to_N (v : N) : Byte.to_N (char_of_long (Z.of_N v)) = v mod 256.
Proof.
  unfold char_of_long.
  assert (E : Z.to_N (Z.of_N v mod 256) = v mod 256).
  { change 256%Z with (Z.of_N 256). rewrite <- N2Z.inj_mod. apply N2Z.id. }
  rewrite E.
  destruct (Byte.of_N (v mod 256)) as [b |] eqn:Eb.
  - now apply Byte.to_of_N.
  - apply Byte.of_N_None_iff in Eb.
    pose proof (N.mod_upper_bound v 256 ltac:(discriminate)). lia.
Qed.

Lemma le_value_le_bytes (n : nat) :
  forall v : N, v < 256 ^ N.of_nat n -> le_value (le_bytes n v) = v.
Proof.
  induction n as [| n IH]; intros v Hv.
  - cbn in Hv. cbn [le_bytes le_value]. lia.
  - cbn [le_bytes le_value]. rewrite char_of_long_to_N, IH.
    + rewrite (N.div_mod v 256) at 3 by discriminate. lia.
    + rewrite Nat2N.inj_succ, N.pow_succ_r' in Hv.
      apply N.Div0.div_lt_upper_bound. exact Hv.
Qed.

Lemma object_bytes_length (r : pricing_record) :
  wf_record r -> length (object_bytes r) = 96%nat.
Proof.
  intros Hr. unfold object_bytes.
  rewrite !length_app, !le_bytes_length, length_take.
  unfold wf_record, sizeof_signature in Hr. lia.
Qed.

Lemma four_words_then_rest (a b c d e : list byte) :
  length a = 8%nat -> length b = 8%nat -> length c = 8%nat -> length d = 8%nat ->
  take 8 (a ++ b ++ c ++ d ++ e) = a /\
  take 8 (drop 8 (a ++ b ++ c ++ d ++ e)) = b /\
  take 8 (drop 16 (a ++ b ++ c ++ d ++ e)) = c /\
  take 8 (drop 24 (a ++ b ++ c ++ d ++ e)) = d /\
  drop 32 (a ++ b ++ c ++ d ++ e) = e.
Proof.
  intros Ha Hb Hc Hd.
  do 9 (destruct a as [| ? a]; try discriminate Ha).
  do 9 (destruct b as [| ? b]; try discriminate Hb).
  do 9 (destruct c as [| ? c]; try discriminate Hc).
  do 9 (destruct d as [| ? d]; try discriminate Hd).
  repeat split.
Qed.

Lemma object_of_bytes_object_bytes (r : pricing_record) :
  wf_record r ->
  pr_version r < two64 -> spot r < two64 ->
  moving_average r < two64 -> timestamp r < two64 ->
  object_of_bytes (object_bytes r) = r.
Proof.
  intros Hr Hv Hs Hm Ht. unfold wf_record, sizeof_signature in Hr.
  unfold object_of_bytes, object_bytes.
  assert (V : forall v, v < two64 -> le_value (le_bytes 8 v) = v)
    by (intros v Hlt; now apply (le_value_le_bytes 8)).
  destruct (four_words_then_rest
              (le_bytes 8 (pr_version r)) (le_bytes 8 (spot r))
              (le_bytes 8 (moving_average r)) (le_bytes 8 (timestamp r))
              (take 64 (signature r)))
    as (E1 & E2 & E3 & E4 & E5); try apply le_bytes_length.
  rewrite E1, E2, E3, E4, E5, !V by assumption.
  rewrite !take_ge by (rewrite ?length_take; lia).
  now destruct r.
Qed.

(** Reading with 96 bytes or more at hand, for the binary archive. *)
Lemma do_serialize_read_enough (ar : binary_archive) (pr : pricing_record) :
  (96 <= length (bytes_ ar))%nat ->
  do_serialize_read ar pr =
  (good_ ar, mk_binary_archive (drop 96 (bytes_ ar)) (good_ ar),
   object_of_bytes (take 96 (bytes_ ar))).
Proof.
  intros Hge. unfold do_serialize_read.
  cbn [remaining_bytes serialize_blob good binary_archive_read].
  replace (N.of_nat (length (bytes_ ar)) <? sizeof_pricing_record) with false
    by (symmetry; apply N.ltb_ge; unfold sizeof_pricing_record; lia).
  replace (N.min sizeof_pricing_record (N.of_nat (length (bytes_ ar))))
    with sizeof_pricing_record
    by (symmetry; apply N.min_l; unfold sizeof_pricing_record; lia).
  rewrite N.eqb_refl, andb_true_r.
  change (N.to_nat sizeof_pricing_record) with 96%nat.
  cbn [good_ bytes_].
  rewrite object_of_bytes_prefix by (rewrite length_take; lia).
  now destruct (good_ ar).
Qed.

(** X13. Writing a record to a good binary archive appends its 96 bytes
    and returns [true]; reading from an archive that starts with these
    bytes gives the record back, whatever the receiving record held, and
    leaves the bytes after them.  A writer whose stream has failed writes
    nothing and returns [false]. *)
Theorem blob_write_read_roundtrip (r pr : pricing_record) (out rest : list byte) :
  wf_record r ->
  pr_version r < two64 -> spot r < two64 ->
  moving_average r < two64 -> timestamp r < two64 ->
  do_serialize_write (mk_binary_writer out true) r
    = (true, mk_binary_writer (out ++ object_bytes r) true) /\
  length (object_bytes r) = 96%nat /\
  do_serialize_read (mk_binary_archive (object_bytes r ++ rest) true) pr
    = (true, mk_binary_archive rest true, r) /\
  do_serialize_write (mk_binary_writer out false) r
    = (false, mk_binary_writer out false).
Proof.
  intros Hr Hv Hs Hm Ht.
  pose proof (object_bytes_length r Hr) as HL.
  split; [| split; [exact HL | split; [| reflexivity]]].
  - unfold do_serialize_write.
    cbn [begin_string put_blob good_w end_string binary_writer_write
         stream_good stream_ negb].
    change (N.to_nat sizeof_pricing_record) with 96%nat.
    now rewrite take_ge by lia.
  - rewrite do_serialize_read_enough by (cbn [bytes_]; rewrite length_app; lia).
    cbn [bytes_ good_].
    rewrite take_app_length', drop_app_length' by (symmetry; exact HL).
    now rewrite (object_of_bytes_object_bytes r Hr Hv Hs Hm Ht).
Qed.

(** X14. Two reads in a row from a good archive that holds two blobs give
    the two objects in order and leave what follows the second blob. *)
Theorem do_serialize_read_twice (b1 b2 rest : list byte) (pr1 pr2 : pricing_record) :
  length b1 = 96%nat -> length b2 = 96%nat ->
  exists ar1,
    do_serialize_read (mk_binary_archive (b1 ++ b2 ++ rest) true) pr1
      = (true, ar1, object_of_bytes b1) /\
    do_serialize_read ar1 pr2
      = (true, mk_binary_archive rest true, object_of_bytes b2).
Proof.
  intros H1 H2. exists (mk_binary_archive (b2 ++ rest) true). split.
  - rewrite do_serialize_read_enough by (cbn [bytes_]; rewrite !length_app; lia).
    cbn [bytes_ good_].
    now rewrite take_app_length', drop_app_length' by (symmetry; exact H1).
  - rewrite do_serialize_read_enough by (cbn [bytes_]; rewrite !length_app; lia).
    cbn [bytes_ good_].
    now rewrite take_app_length', drop_app_length' by (symmetry; exact H2).
Qed.

(** * More examples *)

Lemma equal_iff_eq_witness :
  equal Demo.signed_record Samples.other_record = true
  <-> Demo.signed_record = Samples.other_record.
Proof.
  apply (equal_iff_eq Demo.signed_record Samples.other_record); reflexivity.
Defined.

Lemma empty_characterisation_witness :
  empty Demo.signed_record = false /\ has_missing_rates default_record = true.
Proof.
  split.
  - apply (proj1 (proj2 (empty_characterisation Demo.signed_record ltac:(reflexivity)))).
    right. left. simpl. lia.
  - apply (proj2 (proj2 (empty_characterisation default_record ltac:(reflexivity)))).
    reflexivity.
Defined.

Lemma copy_and_assign_give_original_witness :
  copy_construct (repeat xff 64) Demo.signed_record = Demo.signed_record /\
  assign Samples.other_record Demo.signed_record = Demo.signed_record.
Proof.
  pose proof (copy_and_assign_give_original (repeat xff 64) Samples.other_record
                Demo.signed_record ltac:(reflexivity) ltac:(reflexivity)
                ltac:(reflexivity)) as (Hc & Ha & _).
  split; [exact Hc | exact Ha].
Defined.

Lemma valid_accepts_iff_witness :
  exists log,
    @valid Demo.openssl Demo.config Demo.MAINNET 2 1010 999 Demo.signed_record
    = Ret (true, log).
Proof.
  apply (proj2 (proj1 (@valid_accepts_iff Demo.openssl Demo.config Demo.MAINNET
                         2 1010 999 Demo.signed_record))).
  right. split; [simpl; lia |]. split; [reflexivity |]. split.
  - exists Demo.key. split; reflexivity.
  - split; [vm_compute; discriminate | simpl; lia].
Defined.

Lemma valid_invalid_signature_witness :
  @valid Demo.openssl Demo.config Demo.MAINNET 2 1010 999 Demo.unsigned_record
  = Ret (false, ["Invalid pricing record signature."%string]).
Proof.
  apply (@valid_invalid_signature Demo.openssl Demo.config Demo.MAINNET 2 1010 999
           Demo.unsigned_record Demo.key).
  - simpl. lia.
  - reflexivity.
  - reflexivity.
  - reflexivity.
  - reflexivity.
Defined.

Lemma valid_throws_iff_witness :
  @valid Demo.openssl Samples.config_empty_key Demo.MAINNET 2 1010 999
     Demo.signed_record
  = Throw "Pricing record verification failed. NULL public key. PK Size: 0" /\
  @valid Demo.openssl Demo.config Demo.UNDEFINED 2 1010 999 Demo.signed_record
  = Throw "Invalid network type".
Proof.
  split.
  - apply (proj2 (@valid_throws_iff Demo.openssl Samples.config_empty_key
                    Demo.MAINNET 2 1010 999 Demo.signed_record _)).
    split; [reflexivity |]. split; [simpl; lia |]. split; [reflexivity |].
    right. exists EmptyString. split; reflexivity.
  - apply (proj2 (@valid_throws_iff Demo.openssl Demo.config
                    Demo.UNDEFINED 2 1010 999 Demo.signed_record _)).
    split; [reflexivity |]. split; [simpl; lia |]. split; [reflexivity |].
    left. reflexivity.
Defined.

Lemma valid_silent_rejection_iff_witness :
  @valid Demo.openssl Demo.config Demo.MAINNET 1 1010 999 Demo.signed_record
  = Ret (false, []).
Proof.
  apply (proj2 (@valid_silent_rejection_iff Demo.openssl Demo.config Demo.MAINNET
                  1 1010 999 Demo.signed_record)).
  split; [simpl; lia | reflexivity].
Defined.

Lemma verifySignature_true_iff_witness :
  @verifySignature Demo.openssl Demo.key Demo.signed_record = Ret true.
Proof.
  apply (proj2 (proj1 (@verifySignature_true_iff Demo.openssl Demo.key
                         Demo.signed_record))).
  split; [discriminate |]. split; [reflexivity |].
  exists Demo.key, (EmptyString, EmptyString), (Demo.key, EmptyString),
    (Demo.key, message Demo.signed_record).
  repeat split.
Defined.

Lemma message_determines_members_witness :
  pr_version Demo.signed_record = pr_version Demo.unsigned_record /\
  spot Demo.signed_record = spot Demo.unsigned_record /\
  moving_average Demo.signed_record = moving_average Demo.unsigned_record /\
  timestamp Demo.signed_record = timestamp Demo.unsigned_record.
Proof.
  apply (message_determines_members Demo.signed_record Demo.unsigned_record).
  reflexivity.
Defined.

Lemma _load_decodes_hex_text_witness :
  exists sig',
    length sig' = 64%nat /\
    (forall this, wf_record this ->
       _load (Some (Demo.wire Samples.mixed_case_text)) this =
       LoadTrue (mk_pricing_record 7 8 9 10 sig')) /\
    (forall j : nat, (j < 64)%nat ->
       exists c1 c2 b,
         get (2 * j) Samples.mixed_case_text = Some c1 /\
         get (2 * j + 1) Samples.mixed_case_text = Some c2 /\
         byte_of_hex_digits c1 c2 = Some b /\
         sig' !! j = Some b).
Proof.
  apply (_load_decodes_hex_text (Demo.wire Samples.mixed_case_text)).
  reflexivity.
Defined.

Lemma store_injective_witness :
  store Demo.signed_record = store (assign Samples.other_record Demo.signed_record) /\
  Demo.signed_record = assign Samples.other_record Demo.signed_record.
Proof.
  split; [reflexivity |].
  apply (store_injective Demo.signed_record
           (assign Samples.other_record Demo.signed_record)); reflexivity.
Defined.

Lemma _load_idempotent_witness :
  _load (Some (Demo.wire "abc"))
    (mk_pricing_record 7 8 9 10 (xab :: x0c :: drop 2 (signature Demo.signed_record)))
  = LoadTrue
      (mk_pricing_record 7 8 9 10 (xab :: x0c :: drop 2 (signature Demo.signed_record))).
Proof.
  apply (proj2 (_load_idempotent (Demo.wire "abc") Demo.signed_record _
                  ltac:(reflexivity) ltac:(reflexivity))).
Defined.

Lemma blob_write_read_roundtrip_witness :
  do_serialize_write (mk_binary_writer [x01; x02] true) Demo.signed_record
    = (true, mk_binary_writer ([x01; x02] ++ object_bytes Demo.signed_record) true) /\
  do_serialize_read
    (mk_binary_archive (object_bytes Demo.signed_record ++ [xff]) true)
    Samples.other_record
    = (true, mk_binary_archive [xff] true, Demo.signed_record).
Proof.
  pose proof (blob_write_read_roundtrip Demo.signed_record Samples.other_record
                [x01; x02] [xff]
                ltac:(reflexivity) ltac:(reflexivity) ltac:(reflexivity)
                ltac:(reflexivity) ltac:(reflexivity)) as (Hw & _ & Hread & _).
  split; [exact Hw | exact Hread].
Defined.

Lemma do_serialize_read_twice_witness :
  exists ar1,
    do_serialize_read
      (mk_binary_archive (take 96 Demo.blob ++ repeat x01 96 ++ []) true)
      default_record
      = (true, ar1, object_of_bytes (take 96 Demo.blob)) /\
    do_serialize_read ar1 default_record
      = (true, mk_binary_archive [] true, object_of_bytes (repeat x01 96)).
Proof.
  apply (do_serialize_read_twice (take 96 Demo.blob) (repeat x01 96) []
           default_record default_record); reflexivity.
Defined.
